(** * doctor-game: the entity-component update pipeline of [src/game.js]

    A shallow embedding of the pure stages of the game ([timeSystem],
    [inputSystem], [movementSystem], [spawnerSystem], [fallingSystem],
    [difficultySystem], [collisionSystem], [cleanupSystem]) and of their
    composition [update], of the keyboard listeners and of the frame
    [loop], followed by the properties of the pipeline.

    Modelling conventions.
    - A JavaScript number is modelled by an exact rational ([Q]).  [NaN],
      the infinities and the rounding of IEEE doubles are outside the model;
      every statement below is about finite numbers with exact arithmetic.
      In particular a division by zero yields [0] here, and [Math.pow] is
      the integral power, its exponent in the program being a floor.
    - A JavaScript object with optional members (the [components] of an
      entity, [world.input]) is a record of [option]s.
    - Reading a member of [undefined] raises a [TypeError] in JavaScript.
      A stage therefore returns [option World.t]; [None] stands for the
      exception.
    - What the stages read from the browser (the canvas size, the keyboard
      state, the draws of [Math.random]) is collected in a [Host.t] that every
      stage receives.
    - The data model asks that every block has a [tag], a [position] and a
      [size], and that the player has a [position] and a [size] but no
      [tag].  The statements name the part of it they rely on
      ([blocks_boxed], [players_placed], [players_untagged],
      [well_formed]). *)

From Stdlib Require Import QArith Qround Qpower Lqa ZArith Lia Bool List String Ascii.
From Stdlib Require Import DecimalString.
Import ListNotations.

Open Scope string_scope.
Open Scope Q_scope.

(** ** Numbers *)

(** [a < b] on numbers. *)
Definition num_lt (a b : Q) : bool :=
  match a ?= b with
  | Lt => true
  | _ => false
  end.

(** [Math.max(a, b)] and [Math.min(a, b)]. *)
Definition Math_max (a b : Q) : Q := if num_lt a b then b else a.
Definition Math_min (a b : Q) : Q := if num_lt b a then b else a.

(** [Math.floor(a)]. *)
Definition Math_floor (a : Q) : Q := inject_Z (Qfloor a).

(** [Math.pow(b, e)].  The program only calls it with an exponent that is a
    result of [Math.floor], so the model is the integral power. *)
Definition Math_pow (b e : Q) : Q := Qpower b (Qfloor e).

(** The text a template literal gives for an integral number. *)
Definition string_of_number (a : Q) : string :=
  NilZero.string_of_int (Z.to_int (Qfloor a)).

(** ** The error monad of a stage *)

Definition bind {A B : Type} (m : option A) (k : A -> option B) : option B :=
  match m with
  | Some a => k a
  | None => None
  end.

Notation "x <- m ;; k" := (bind m (fun x => k))
  (at level 61, m at next level, right associativity).

(** [Array.prototype.map] with a callback that may throw. *)
Fixpoint mapM {A B : Type} (f : A -> option B) (l : list A) : option (list B) :=
  match l with
  | [] => Some []
  | a :: l' =>
      b <- f a ;;
      bs <- mapM f l' ;;
      Some (b :: bs)
  end.

(** [Array.prototype.filter] with a callback that may throw and that updates
    a counter captured from the enclosing scope. *)
Fixpoint filterSt {A S : Type} (f : A -> S -> option (bool * S))
    (l : list A) (s : S) : option (list A * S) :=
  match l with
  | [] => Some ([], s)
  | a :: l' =>
      r <- f a s ;;
      t <- filterSt f l' (snd r) ;;
      Some (if fst r then a :: fst t else fst t, snd t)
  end.

(** [Array.prototype.some] with a callback that may throw: the scan stops at
    the first element the callback accepts. *)
Fixpoint someM {A : Type} (f : A -> option bool) (l : list A) : option bool :=
  match l with
  | [] => Some false
  | a :: l' =>
      b <- f a ;;
      if b then Some true else someM f l'
  end.

(** ** Data model *)

Module Position.
Record t : Type := mk { x : Q; y : Q }.
End Position.

Module Size.
Record t : Type := mk { w : Q; h : Q }.
End Size.

Module Falling.
Record t : Type := mk { baseSpeed : Q; speed : Q }.
End Falling.

Module Tag.
Record t : Type := mk { kind : string }.
End Tag.

Module Components.
Record t : Type := mk {
  position : option Position.t;
  size : option Size.t;
  falling : option Falling.t;
  tag : option Tag.t
}.
End Components.

Module Entity.
Record t : Type := mk { id : string; components : Components.t }.
End Entity.

Module Spawn.
Record t : Type := mk {
  last : Q;
  baseInterval : Q;
  interval : Q;
  minInterval : Q
}.
End Spawn.

Module Game.
Record t : Type := mk { over : bool }.
End Game.

Module Difficulty.
Record t : Type := mk { step : Q; factor : Q }.
End Difficulty.

Module Input.
Record t : Type := mk { left : bool; right : bool }.
End Input.

Module World.
Record t : Type := mk {
  entities : list Entity.t;
  time : Q;
  spawn : Spawn.t;
  score : Q;
  game : Game.t;
  difficulty : Difficulty.t;
  input : option Input.t
}.

(** [{ ...world, entities: es }] and the other spreads the stages use. *)
Definition with_entities (es : list Entity.t) (world : t) : t :=
  mk es (time world) (spawn world) (score world) (game world)
     (difficulty world) (input world).
Definition with_time (a : Q) (world : t) : t :=
  mk (entities world) a (spawn world) (score world) (game world)
     (difficulty world) (input world).
Definition with_spawn (s : Spawn.t) (world : t) : t :=
  mk (entities world) (time world) s (score world) (game world)
     (difficulty world) (input world).
Definition with_input (i : option Input.t) (world : t) : t :=
  mk (entities world) (time world) (spawn world) (score world) (game world)
     (difficulty world) i.
End World.

Module Canvas.
Record t : Type := mk { width : Q; height : Q }.
End Canvas.

(** What a pipeline pass reads from the browser: the canvas, the keyboard
    state kept by the event listeners, and the two numbers [Math.random]
    returns when the spawner draws a block. *)
Module Host.
Record t : Type := mk {
  canvas : Canvas.t;
  inputState : Input.t;
  random_x : Q;
  random_kind : Q
}.
End Host.

Definition System : Type := Host.t -> World.t -> Q -> option World.t.

(** ** Constants and constructors *)

Definition PLAYER_SIZE : Q := 150.
Definition BLOCK_SIZE : Q := 70.

Definition createWorld : World.t :=
  World.mk [] 0 (Spawn.mk 0 (8 # 10) (8 # 10) (25 # 100)) 0
           (Game.mk false) (Difficulty.mk 30 (125 # 100)) None.

Definition addEntity (world : World.t) (entity : Entity.t) : World.t :=
  World.with_entities (World.entities world ++ [entity]) world.

(** The player entity the program adds to the initial world. *)
Definition player (canvas : Canvas.t) : Entity.t :=
  Entity.mk "player"
    (Components.mk
       (Some (Position.mk (Canvas.width canvas / 2 - PLAYER_SIZE / 2)
                          (Canvas.height canvas - PLAYER_SIZE - 20)))
       (Some (Size.mk PLAYER_SIZE PLAYER_SIZE))
       None None).

Definition createBlock (id : string) (x : Q) (kind : string) : Entity.t :=
  Entity.mk id
    (Components.mk
       (Some (Position.mk x (- BLOCK_SIZE)))
       (Some (Size.mk BLOCK_SIZE BLOCK_SIZE))
       (Some (Falling.mk 160 160))
       (Some (Tag.mk kind))).

Definition setInput (state : Input.t) (key : string) (isDown : bool) : Input.t :=
  if (key =? "ArrowLeft")%string then Input.mk isDown (Input.right state)
  else if (key =? "ArrowRight")%string then Input.mk (Input.left state) isDown
  else state.

(** ** The pipeline composer *)

Definition pipeSystems (systems : list System) : System :=
  fun host world dt =>
    fold_left (fun w sys => w0 <- w ;; sys host w0 dt) systems (Some world).

(** ** Stages *)

Definition is_player (e : Entity.t) : bool := (Entity.id e =? "player")%string.

Definition with_position (p : Position.t) (e : Entity.t) : Entity.t :=
  let c := Entity.components e in
  Entity.mk (Entity.id e)
    (Components.mk (Some p) (Components.size c) (Components.falling c)
                   (Components.tag c)).

Definition with_falling (f : Falling.t) (e : Entity.t) : Entity.t :=
  let c := Entity.components e in
  Entity.mk (Entity.id e)
    (Components.mk (Components.position c) (Components.size c) (Some f)
                   (Components.tag c)).

Definition inputSystem : System := fun host world dt =>
  Some (World.with_input (Some (Host.inputState host)) world).

(** The horizontal velocity of the player for a keyboard state;
    [world.input || {}] makes an absent input read as no key held. *)
Definition velocity (input : option Input.t) : Q :=
  let speed := 350 in
  let left := match input with Some i => Input.left i | None => false end in
  let right := match input with Some i => Input.right i | None => false end in
  (if left then - speed else 0) + (if right then speed else 0).

Definition movePlayer (host : Host.t) (world : World.t) (dt : Q)
    (e : Entity.t) : option Entity.t :=
  if negb (is_player e) then Some e
  else
    p <- Components.position (Entity.components e) ;;
    let dx := velocity (World.input world) in
    let newX := Position.x p + dx * dt in
    let newX :=
      Math_max 0 (Math_min (Canvas.width (Host.canvas host) - PLAYER_SIZE) newX) in
    Some (with_position (Position.mk newX (Position.y p)) e).

Definition movementSystem : System := fun host world dt =>
  newEntities <- mapM (movePlayer host world dt) (World.entities world) ;;
  Some (World.with_entities newEntities world).

Definition timeSystem : System := fun host world dt =>
  Some (World.with_time (World.time world + dt) world).

Definition spawnerSystem : System := fun host world dt =>
  let last := Spawn.last (World.spawn world) in
  let interval := Spawn.interval (World.spawn world) in
  if num_lt (World.time world - last) interval then Some world
  else
    let x := Host.random_x host * (Canvas.width (Host.canvas host) - BLOCK_SIZE) in
    let kind := (if num_lt (Host.random_kind host) (7 # 10) then "bad" else "good")%string in
    let blockId :=
      (kind ++ "_" ++ string_of_number (Math_floor (World.time world * 1000)))%string in
    let block := createBlock blockId x kind in
    let newWorld := addEntity world block in
    let s := World.spawn world in
    Some (World.with_spawn
            (Spawn.mk (World.time world) (Spawn.baseInterval s)
                      (Spawn.interval s) (Spawn.minInterval s))
            newWorld).

Definition fall (dt : Q) (e : Entity.t) : Entity.t :=
  match Components.falling (Entity.components e),
        Components.position (Entity.components e) with
  | Some f, Some p =>
      with_position
        (Position.mk (Position.x p) (Position.y p + Falling.speed f * dt)) e
  | _, _ => e
  end.

Definition fallingSystem : System := fun host world dt =>
  Some (World.with_entities (map (fall dt) (World.entities world)) world).

Definition rescale (speedMult : Q) (e : Entity.t) : Entity.t :=
  match Components.falling (Entity.components e) with
  | None => e
  | Some f =>
      with_falling (Falling.mk (Falling.baseSpeed f) (Falling.baseSpeed f * speedMult)) e
  end.

Definition difficultySystem : System := fun host world dt =>
  let step := Difficulty.step (World.difficulty world) in
  let factor := Difficulty.factor (World.difficulty world) in
  let level := Math_floor (World.time world / step) in
  let speedMult := Math_pow factor level in
  let intervalMult := Math_pow (1 / factor) level in
  let newEntities := map (rescale speedMult) (World.entities world) in
  let s := World.spawn world in
  let rawInterval := Spawn.baseInterval s * intervalMult in
  let newInterval := Math_max rawInterval (Spawn.minInterval s) in
  Some (World.with_spawn
          (Spawn.mk (Spawn.last s) (Spawn.baseInterval s) newInterval
                    (Spawn.minInterval s))
          (World.with_entities newEntities world)).

(** ** Collision geometry *)

Module Margins.
Record t : Type := mk { left : Q; right : Q; top : Q; bottom : Q }.
End Margins.

Module Rect.
Record t : Type := mk { x : Q; y : Q; w : Q; h : Q }.
End Rect.

Definition hitboxWithMargins (p : Position.t) (s : Size.t) (m : Margins.t) : Rect.t :=
  Rect.mk (Position.x p + Size.w s * Margins.left m)
          (Position.y p + Size.h s * Margins.top m)
          (Size.w s * (1 - Margins.left m - Margins.right m))
          (Size.h s * (1 - Margins.top m - Margins.bottom m)).

Definition PLAYER_MARGINS : Margins.t :=
  Margins.mk (15 # 100) (40 # 100) (8 # 100) (6 # 100).
Definition GOOD_MARGINS : Margins.t :=
  Margins.mk (14 # 100) (14 # 100) (8 # 100) (18 # 100).
Definition BAD_MARGINS : Margins.t :=
  Margins.mk (8 # 100) (8 # 100) (8 # 100) (7 # 100).

Definition rectsOverlap (a b : Rect.t) : bool :=
  num_lt (Rect.x a) (Rect.x b + Rect.w b) &&
  num_lt (Rect.x b) (Rect.x a + Rect.w a) &&
  num_lt (Rect.y a) (Rect.y b + Rect.h b) &&
  num_lt (Rect.y b) (Rect.y a + Rect.h a).

(** [hitboxWithMargins(e.components.position, e.components.size, m)]: a
    [TypeError] when the entity lacks one of the two components. *)
Definition hitboxOf (e : Entity.t) (m : Margins.t) : option Rect.t :=
  p <- Components.position (Entity.components e) ;;
  s <- Components.size (Entity.components e) ;;
  Some (hitboxWithMargins p s m).

Definition is_good (t : Tag.t) : bool := (Tag.kind t =? "good")%string.
Definition is_bad (t : Tag.t) : bool := (Tag.kind t =? "bad")%string.

(** The callback of the [filter] of [collisionSystem]: whether the entity is
    kept, and the counter [earned] after the call. *)
Definition pickup (playerRect : Rect.t) (e : Entity.t) (earned : Q)
    : option (bool * Q) :=
  match Components.tag (Entity.components e) with
  | None => Some (true, earned)
  | Some tag =>
      let margins := if is_good tag then GOOD_MARGINS else BAD_MARGINS in
      blockRect <- hitboxOf e margins ;;
      if negb (rectsOverlap playerRect blockRect) then Some (true, earned)
      else if is_good tag then Some (false, earned + 1)
      else Some (true, earned)
  end.

(** The callback of the [some] of [collisionSystem]. *)
Definition hitsBad (playerRect : Rect.t) (e : Entity.t) : option bool :=
  match Components.tag (Entity.components e) with
  | None => Some false
  | Some tag =>
      if negb (is_bad tag) then Some false
      else
        blockRect <- hitboxOf e BAD_MARGINS ;;
        Some (rectsOverlap playerRect blockRect)
  end.

Definition collisionSystem : System := fun host world dt =>
  if Game.over (World.game world) then Some world
  else
    match find is_player (World.entities world) with
    | None => Some world
    | Some player =>
        playerRect <- hitboxOf player PLAYER_MARGINS ;;
        r <- filterSt (pickup playerRect) (World.entities world) 0 ;;
        let newEntities := fst r in
        let earned := snd r in
        hitBad <- someM (hitsBad playerRect) (World.entities world) ;;
        Some (World.mk newEntities (World.time world) (World.spawn world)
                       (World.score world + earned) (Game.mk hitBad)
                       (World.difficulty world) (World.input world))
    end.

(** The callback of the [filter] of [cleanupSystem]. *)
Definition onScreen (host : Host.t) (e : Entity.t) : option bool :=
  match Components.tag (Entity.components e) with
  | None => Some true
  | Some _ =>
      p <- Components.position (Entity.components e) ;;
      s <- Components.size (Entity.components e) ;;
      Some (num_lt (Position.y p) (Canvas.height (Host.canvas host) + Size.h s))
  end.

Definition cleanupSystem : System := fun host world dt =>
  r <- filterSt (fun e (_ : unit) => b <- onScreen host e ;; Some (b, tt))
                (World.entities world) tt ;;
  Some (World.with_entities (fst r) world).

(** The stages in the order [update] runs them. *)
Definition stages : list System :=
  [timeSystem; inputSystem; movementSystem; spawnerSystem; fallingSystem;
   difficultySystem; collisionSystem; cleanupSystem].

Definition update : System := pipeSystems stages.

(** One animation frame: the host state the frame sees and its [dt]. *)
Definition Frame : Type := (Host.t * Q)%type.

(** The worlds the loop goes through over a sequence of frames. *)
Fixpoint run (frames : list Frame) (world : World.t) : option World.t :=
  match frames with
  | [] => Some world
  | (host, dt) :: rest =>
      w <- update host world dt ;;
      run rest w
  end.

(** ** Predicates the statements use *)

(** The entity has both a [position] and a [size]. *)
Definition boxed (e : Entity.t) : bool :=
  match Components.position (Entity.components e),
        Components.size (Entity.components e) with
  | Some _, Some _ => true
  | _, _ => false
  end.

Definition tagged (e : Entity.t) : bool :=
  match Components.tag (Entity.components e) with
  | Some _ => true
  | None => false
  end.

(** Data-model invariant: every block (tagged entity) has a [position] and a
    [size]. *)
Definition blocks_boxed (es : list Entity.t) : bool :=
  forallb (fun e => implb (tagged e) (boxed e)) es.

(** Data-model invariant: an entity with id ["player"] has a [position] and
    a [size]. *)
Definition players_boxed (es : list Entity.t) : bool :=
  forallb (fun e => implb (is_player e) (boxed e)) es.

(** Data-model invariant: an entity with id ["player"] never has a [tag]. *)
Definition players_untagged (es : list Entity.t) : bool :=
  forallb (fun e => implb (is_player e) (negb (tagged e))) es.

(** An entity with id ["player"] has a [position]. *)
Definition placed (e : Entity.t) : bool :=
  match Components.position (Entity.components e) with
  | Some _ => true
  | None => false
  end.

Definition players_placed (es : list Entity.t) : bool :=
  forallb (fun e => implb (is_player e) (placed e)) es.

(** The x the movement stage gives a player at [p]. *)
Definition clampedX (host : Host.t) (world : World.t) (dt : Q) (p : Position.t) : Q :=
  Math_max 0
    (Math_min (Canvas.width (Host.canvas host) - PLAYER_SIZE)
              (Position.x p + velocity (World.input world) * dt)).

(** The test of the cleanup stage: an untagged entity stays, a block stays
    while [y < canvas.height + size.h]. *)
Definition kept (host : Host.t) (e : Entity.t) : bool :=
  match Components.tag (Entity.components e),
        Components.position (Entity.components e),
        Components.size (Entity.components e) with
  | Some _, Some p, Some s =>
      num_lt (Position.y p) (Canvas.height (Host.canvas host) + Size.h s)
  | _, _, _ => true
  end.

(** Well-formed worlds: every block and every player has a position and a
    size.  No stage raises an exception on such a world. *)
Definition well_formed (world : World.t) : bool :=
  blocks_boxed (World.entities world) && players_boxed (World.entities world).

(** What the invariants of the data model look at in an entity. *)
Definition shape (e : Entity.t) : string * bool * bool :=
  (Entity.id e, tagged e, boxed e).

(** Time and score never go back, and a finished game keeps its score and
    stays finished. *)
Definition progress (world world' : World.t) : Prop :=
  World.time world <= World.time world' /\
  World.score world <= World.score world' /\
  (Game.over (World.game world) = true ->
   World.score world' = World.score world /\
   Game.over (World.game world') = true).

(** The number of entities with id ["player"]. *)
Definition count_players (es : list Entity.t) : nat :=
  List.length (filter is_player es).

(** Exactly one entity has id ["player"], and it has no tag. *)
Definition one_player (world : World.t) : Prop :=
  count_players (World.entities world) = 1%nat /\
  players_untagged (World.entities world) = true.

(** The block is tagged [kind] and its hit-rectangle, shrunk by [m], overlaps
    [playerRect] under the strict AABB test. *)
Definition overlapping (kind : string) (m : Margins.t) (playerRect : Rect.t)
    (e : Entity.t) : bool :=
  match Components.tag (Entity.components e), hitboxOf e m with
  | Some t, Some blockRect =>
      (Tag.kind t =? kind)%string && rectsOverlap playerRect blockRect
  | _, _ => false
  end.

Definition good_hit : Rect.t -> Entity.t -> bool := overlapping "good" GOOD_MARGINS.
Definition bad_hit : Rect.t -> Entity.t -> bool := overlapping "bad" BAD_MARGINS.

(** [earned] after [k] increments, starting from [s]. *)
Fixpoint bump (k : nat) (s : Q) : Q :=
  match k with
  | O => s
  | S k' => bump k' (s + 1)
  end.

(** How a stage may change the entity list: it rewrites entities in place
    keeping their [shape], or appends a new block, or drops some tagged
    entities. *)
Inductive entities_step : list Entity.t -> list Entity.t -> Prop :=
| reshaped (es es' : list Entity.t) :
    Forall2 (fun e e' => shape e' = shape e) es es' ->
    entities_step es es'
| spawned (es : list Entity.t) (id : string) (x : Q) (kind : string) :
    (id =? "player")%string = false ->
    entities_step es (es ++ [createBlock id x kind])
| filtered (es : list Entity.t) (keep : Entity.t -> bool) :
    (forall e, tagged e = false -> keep e = true) ->
    entities_step es (filter keep es).

(** ** Sample worlds *)

Module Sample.
Definition canvas : Canvas.t := Canvas.mk 800 600.
Definition host : Host.t := Host.mk canvas (Input.mk false true) (1 # 2) (9 # 10).

Definition block (kind : string) (x y : Q) : Entity.t :=
  Entity.mk (kind ++ "_0")
    (Components.mk (Some (Position.mk x y)) (Some (Size.mk 70 70))
                   (Some (Falling.mk 160 160)) (Some (Tag.mk kind))).

(** The player at x = 100 on an 800 x 600 canvas. *)
Definition hero : Entity.t :=
  Entity.mk "player"
    (Components.mk (Some (Position.mk 100 430)) (Some (Size.mk 150 150))
                   None None).
Definition heroRect : Rect.t :=
  hitboxWithMargins (Position.mk 100 430) (Size.mk 150 150) PLAYER_MARGINS.

Definition within (es : list Entity.t) : World.t :=
  World.with_entities es createWorld.

(** A good and a bad block on the player, and a good block far away. *)
Definition good_on : Entity.t := block "good" 130 440.
Definition bad_on : Entity.t := block "bad" 150 450.
Definition good_off : Entity.t := block "good" 600 100.
Definition crowded : World.t := within [hero; good_on; bad_on; good_off].

(** A window narrower than the player sprite. *)
Definition narrow_host : Host.t :=
  Host.mk (Canvas.mk 100 600) (Input.mk false false) (1 # 2) (9 # 10).

(** A block whose top is exactly one block height below the canvas, and
    one a pixel higher. *)
Definition fallen : Entity.t := block "bad" 10 670.
Definition falling_out : Entity.t := block "good" 10 669.

(** The world the program starts from, and two frames. *)
Definition start : World.t := addEntity createWorld (player canvas).
Definition frames : list Frame := [(host, 1); (host, 1 # 10)].

(** The scenario of the spec: the player at x = 100 under a bad block, one
    pass with dt = 0.016. *)
Definition ambush : World.t := within [hero; bad_on].

(** The player next to a bad block, with the right key held. *)
Definition pushed : World.t :=
  World.with_input (Some (Input.mk false true)) (within [hero; bad_on]).

End Sample.

(** ** The keyboard listeners, the frame loop and the sprites *)

(** The two listeners on [window]: a [keydown] event replaces [inputState] by
    [setInput(inputState, e.key, true)], a [keyup] event by
    [setInput(inputState, e.key, false)].  An event is its key and whether it
    is a press. *)
Definition KeyEvent : Type := (string * bool)%type.

Definition listen (events : list KeyEvent) (inputState : Input.t) : Input.t :=
  fold_left (fun state ev => setInput state (fst ev) (snd ev)) events inputState.

(** Whether the most recent event on [key] was a press; [None] without one. *)
Fixpoint lastEvent (key : string) (events : list KeyEvent) : option bool :=
  match events with
  | [] => None
  | ev :: rest =>
      match lastEvent key rest with
      | Some isDown => Some isDown
      | None => if (fst ev =? key)%string then Some (snd ev) else None
      end
  end.


(** The image [loop] picks for an entity. *)
Inductive Sprite : Type := playerImage | goodImage | badImage.

Definition spriteOf (e : Entity.t) : option Sprite :=
  if is_player e then Some playerImage
  else
    match Components.tag (Entity.components e) with
    | Some tag =>
        if is_good tag then Some goodImage
        else if is_bad tag then Some badImage
        else None
    | None => None
    end.

(** [loop] has an image for the entity. *)
Definition has_sprite (e : Entity.t) : bool :=
  match spriteOf e with
  | Some _ => true
  | None => false
  end.

(** The rectangle a sprite is drawn in. *)
Definition drawnRect (p : Position.t) (s : Size.t) : Rect.t :=
  Rect.mk (Position.x p) (Position.y p) (Size.w s) (Size.h s).

(** [inner] lies within [outer]. *)
Definition inside (inner outer : Rect.t) : Prop :=
  Rect.x outer <= Rect.x inner /\
  Rect.x inner + Rect.w inner <= Rect.x outer + Rect.w outer /\
  Rect.y outer <= Rect.y inner /\
  Rect.y inner + Rect.h inner <= Rect.y outer + Rect.h outer.

(** No margin is negative. *)
Definition margins_ok (m : Margins.t) : Prop :=
  0 <= Margins.left m /\ 0 <= Margins.right m /\
  0 <= Margins.top m /\ 0 <= Margins.bottom m.


(** The clock after a sequence of frames: each [dt] added in turn. *)
Definition clock (frames : list Frame) (time : Q) : Q :=
  fold_left (fun t fr => t + snd fr) frames time.

(** Case analysis on [In sys stages]. *)
Ltac each_stage H :=
  unfold stages in H; cbn [In] in H;
  repeat (destruct H as [H | H]; [subst|]); [..|destruct H].

(** ** Numbers: basic facts *)

Lemma num_lt_true (a b : Q) : num_lt a b = true <-> a < b.
Proof.
  unfold num_lt. rewrite Qlt_alt.
  destruct (a ?= b); split; congruence.
Qed.

Lemma Math_max_lower (a b : Q) : a <= Math_max a b.
Proof.
  unfold Math_max. destruct (num_lt a b) eqn:E.
  - apply num_lt_true in E. apply Qlt_le_weak, E.
  - apply Qle_refl.
Qed.

Lemma Math_min_upper (a b : Q) : Math_min a b <= a.
Proof.
  unfold Math_min. destruct (num_lt b a) eqn:E.
  - apply num_lt_true in E. apply Qlt_le_weak, E.
  - apply Qle_refl.
Qed.

Lemma Math_max_least (a b c : Q) : a <= c -> b <= c -> Math_max a b <= c.
Proof. unfold Math_max. destruct (num_lt a b); auto. Qed.

(** When the upper bound is negative the clamp yields the literal [0]. *)
Lemma clamp_negative_bound (hi v : Q) :
  hi < 0 -> Math_max 0 (Math_min hi v) = 0.
Proof.
  intro H. unfold Math_max.
  destruct (num_lt 0 (Math_min hi v)) eqn:E; [|reflexivity].
  apply num_lt_true in E. pose proof (Math_min_upper hi v). lra.
Qed.

Lemma bump_inject (k : nat) (n : Z) :
  bump k (inject_Z n) = inject_Z (n + Z.of_nat k).
Proof.
  revert n. induction k as [|k IH]; intro n.
  - cbn [bump]. f_equal. lia.
  - cbn [bump].
    replace (inject_Z n + 1) with (inject_Z (n + 1)).
    + rewrite IH. f_equal. lia.
    + unfold Qplus, inject_Z; cbn [Qnum Qden]. f_equal. lia.
Qed.

Lemma bump_zero (k : nat) : bump k 0 = inject_Z (Z.of_nat k).
Proof. exact (bump_inject k 0). Qed.

Lemma bump_ge (k : nat) (s : Q) : s <= bump k s.
Proof.
  revert s. induction k as [|k IH]; intro s; cbn [bump].
  - apply Qle_refl.
  - specialize (IH (s + 1)). lra.
Qed.

(** ** The collision stage *)

Lemma implb_boxed (e : Entity.t) :
  implb (tagged e) (boxed e) = true ->
  forall t, Components.tag (Entity.components e) = Some t ->
  exists p s,
    Components.position (Entity.components e) = Some p /\
    Components.size (Entity.components e) = Some s.
Proof.
  unfold tagged, boxed. intros H t Ht. rewrite Ht in H.
  destruct (Components.position (Entity.components e)) as [p|]; [|discriminate].
  destruct (Components.size (Entity.components e)) as [s|]; [|discriminate].
  eauto.
Qed.

Lemma pickup_boxed (playerRect : Rect.t) (e : Entity.t) (earned : Q) :
  implb (tagged e) (boxed e) = true ->
  pickup playerRect e earned =
    Some (negb (good_hit playerRect e),
          if good_hit playerRect e then earned + 1 else earned).
Proof.
  intro H. unfold pickup, good_hit, overlapping.
  destruct (Components.tag (Entity.components e)) as [t|] eqn:Ht; [|reflexivity].
  destruct (implb_boxed e H t Ht) as (p & s & Hp & Hs).
  unfold hitboxOf, is_good. rewrite Hp, Hs. cbn [bind].
  destruct (Tag.kind t =? "good")%string; cbn [andb].
  - destruct (rectsOverlap _ _); reflexivity.
  - destruct (rectsOverlap _ _); reflexivity.
Qed.

Lemma filterSt_pickup (playerRect : Rect.t) (es : list Entity.t) :
  blocks_boxed es = true ->
  forall earned,
    filterSt (pickup playerRect) es earned =
      Some (filter (fun e => negb (good_hit playerRect e)) es,
            bump (List.length (filter (good_hit playerRect) es)) earned).
Proof.
  unfold blocks_boxed.
  induction es as [|e es IH]; intros H earned; [reflexivity|].
  cbn [forallb] in H. apply andb_true_iff in H. destruct H as [He Hes].
  cbn [filterSt filter]. rewrite (pickup_boxed _ _ _ He). cbn [bind fst snd].
  rewrite (IH Hes). cbn [bind fst snd].
  destruct (good_hit playerRect e); reflexivity.
Qed.

Lemma hitsBad_boxed (playerRect : Rect.t) (e : Entity.t) :
  implb (tagged e) (boxed e) = true ->
  hitsBad playerRect e = Some (bad_hit playerRect e).
Proof.
  intro H. unfold hitsBad, bad_hit, overlapping.
  destruct (Components.tag (Entity.components e)) as [t|] eqn:Ht; [|reflexivity].
  destruct (implb_boxed e H t Ht) as (p & s & Hp & Hs).
  unfold hitboxOf, is_bad. rewrite Hp, Hs. cbn [bind].
  destruct (Tag.kind t =? "bad")%string; reflexivity.
Qed.

Lemma someM_hitsBad (playerRect : Rect.t) (es : list Entity.t) :
  blocks_boxed es = true ->
  someM (hitsBad playerRect) es = Some (existsb (bad_hit playerRect) es).
Proof.
  unfold blocks_boxed.
  induction es as [|e es IH]; intro H; [reflexivity|].
  cbn [forallb] in H. apply andb_true_iff in H. destruct H as [He Hes].
  cbn [someM existsb]. rewrite (hitsBad_boxed _ _ He). cbn [bind].
  destruct (bad_hit playerRect e); [reflexivity|]. exact (IH Hes).
Qed.

(** What the collision stage computes on a running game whose player and
    blocks have their boxes. *)
Lemma collisionSystem_running (host : Host.t) (world : World.t) (dt : Q)
    (player : Entity.t) (playerRect : Rect.t) :
  Game.over (World.game world) = false ->
  find is_player (World.entities world) = Some player ->
  hitboxOf player PLAYER_MARGINS = Some playerRect ->
  blocks_boxed (World.entities world) = true ->
  collisionSystem host world dt =
    Some (World.mk
            (filter (fun e => negb (good_hit playerRect e)) (World.entities world))
            (World.time world) (World.spawn world)
            (World.score world +
               bump (List.length (filter (good_hit playerRect) (World.entities world))) 0)
            (Game.mk (existsb (bad_hit playerRect) (World.entities world)))
            (World.difficulty world) (World.input world)).
Proof.
  intros Hover Hfind Hrect Hboxed. unfold collisionSystem.
  rewrite Hover, Hfind, Hrect. cbn [bind].
  rewrite (filterSt_pickup _ _ Hboxed). cbn [bind fst snd].
  rewrite (someM_hitsBad _ _ Hboxed). reflexivity.
Qed.

Lemma good_hit_intro (playerRect : Rect.t) (b : Entity.t)
    (t : Tag.t) (p : Position.t) (s : Size.t) :
  Components.tag (Entity.components b) = Some t ->
  Tag.kind t = "good" ->
  Components.position (Entity.components b) = Some p ->
  Components.size (Entity.components b) = Some s ->
  rectsOverlap playerRect (hitboxWithMargins p s GOOD_MARGINS) = true ->
  good_hit playerRect b = true.
Proof.
  intros Ht Hk Hp Hs Ho. unfold good_hit, overlapping, hitboxOf.
  rewrite Ht, Hp, Hs. cbn [bind]. rewrite Hk, Ho. reflexivity.
Qed.

(** C1 (collision pickup).  In a running game whose player has a
    hit-rectangle, and whose blocks all have a position and a size, one call
    of the collision stage returns a world from which every good-tagged block
    whose margin-adjusted rectangle overlaps the player's is gone (and only
    those are), and whose score is the old score plus the number of such
    blocks. *)
Theorem collision_pickup (host : Host.t) (world : World.t) (dt : Q)
    (player : Entity.t) (playerRect : Rect.t) :
  Game.over (World.game world) = false ->
  find is_player (World.entities world) = Some player ->
  hitboxOf player PLAYER_MARGINS = Some playerRect ->
  blocks_boxed (World.entities world) = true ->
  exists world',
    collisionSystem host world dt = Some world' /\
    (forall b t p s,
        In b (World.entities world) ->
        Components.tag (Entity.components b) = Some t ->
        Tag.kind t = "good" ->
        Components.position (Entity.components b) = Some p ->
        Components.size (Entity.components b) = Some s ->
        rectsOverlap playerRect (hitboxWithMargins p s GOOD_MARGINS) = true ->
        ~ In b (World.entities world')) /\
    World.entities world' =
      filter (fun e => negb (good_hit playerRect e)) (World.entities world) /\
    World.score world' =
      World.score world +
      inject_Z (Z.of_nat (List.length (filter (good_hit playerRect)
                                              (World.entities world)))).
Proof.
  intros Hover Hfind Hrect Hboxed.
  eexists. split; [exact (collisionSystem_running _ _ _ _ _ Hover Hfind Hrect Hboxed)|].
  cbn [World.entities World.score]. split; [|split].
  - intros b t p s Hin Ht Hk Hp Hs Ho Hin'.
    apply filter_In in Hin'. destruct Hin' as [_ Hkeep].
    rewrite (good_hit_intro _ _ _ _ _ Ht Hk Hp Hs Ho) in Hkeep. discriminate.
  - reflexivity.
  - rewrite bump_zero. reflexivity.
Qed.

Lemma collision_pickup_witness :
  exists world',
    collisionSystem Sample.host Sample.crowded (1 # 60) = Some world' /\
    World.entities world' = [Sample.hero; Sample.bad_on; Sample.good_off] /\
    World.score world' = World.score Sample.crowded + 1.
Proof.
  destruct (collision_pickup Sample.host Sample.crowded (1 # 60)
              Sample.hero Sample.heroRect)
    as (world' & Hrun & _ & Hes & Hscore); try reflexivity.
  exists world'. split; [exact Hrun|]. split; [exact Hes|exact Hscore].
Defined.

Lemma bad_hit_intro (playerRect : Rect.t) (b : Entity.t)
    (t : Tag.t) (p : Position.t) (s : Size.t) :
  Components.tag (Entity.components b) = Some t ->
  Tag.kind t = "bad" ->
  Components.position (Entity.components b) = Some p ->
  Components.size (Entity.components b) = Some s ->
  rectsOverlap playerRect (hitboxWithMargins p s BAD_MARGINS) = true ->
  bad_hit playerRect b = true.
Proof.
  intros Ht Hk Hp Hs Ho. unfold bad_hit, overlapping, hitboxOf.
  rewrite Ht, Hp, Hs. cbn [bind]. rewrite Hk, Ho. reflexivity.
Qed.

Lemma bad_tag_not_good_hit (playerRect : Rect.t) (e : Entity.t) (t : Tag.t) :
  Components.tag (Entity.components e) = Some t ->
  Tag.kind t = "bad" ->
  good_hit playerRect e = false.
Proof.
  intros Ht Hk. unfold good_hit, overlapping. rewrite Ht, Hk.
  destruct (hitboxOf e GOOD_MARGINS); reflexivity.
Qed.

(** C2 (collision game-over).  In a running game whose player has a
    hit-rectangle and whose blocks all have a position and a size, if some
    bad-tagged block overlaps the player then one call of the collision stage
    sets [game.over] and keeps every bad-tagged block; the score is raised in
    the same call by the number of overlapping good blocks, so a good block
    overlapping at the same time is both collected and counted. *)
Theorem collision_game_over (host : Host.t) (world : World.t) (dt : Q)
    (player : Entity.t) (playerRect : Rect.t)
    (bad : Entity.t) (t : Tag.t) (p : Position.t) (s : Size.t) :
  Game.over (World.game world) = false ->
  find is_player (World.entities world) = Some player ->
  hitboxOf player PLAYER_MARGINS = Some playerRect ->
  blocks_boxed (World.entities world) = true ->
  In bad (World.entities world) ->
  Components.tag (Entity.components bad) = Some t ->
  Tag.kind t = "bad" ->
  Components.position (Entity.components bad) = Some p ->
  Components.size (Entity.components bad) = Some s ->
  rectsOverlap playerRect (hitboxWithMargins p s BAD_MARGINS) = true ->
  exists world',
    collisionSystem host world dt = Some world' /\
    Game.over (World.game world') = true /\
    (forall e t',
        In e (World.entities world) ->
        Components.tag (Entity.components e) = Some t' ->
        Tag.kind t' = "bad" ->
        In e (World.entities world')) /\
    World.score world' =
      World.score world +
      inject_Z (Z.of_nat (List.length (filter (good_hit playerRect)
                                              (World.entities world)))) /\
    (forall g, In g (World.entities world) -> good_hit playerRect g = true ->
               ~ In g (World.entities world') /\
               World.score world + 1 <= World.score world').
Proof.
  intros Hover Hfind Hrect Hboxed Hin Ht Hk Hp Hs Ho.
  eexists. split; [exact (collisionSystem_running _ _ _ _ _ Hover Hfind Hrect Hboxed)|].
  cbn [World.entities World.score World.game Game.over].
  split; [|split; [|split]].
  - apply existsb_exists. exists bad. split; [exact Hin|].
    exact (bad_hit_intro _ _ _ _ _ Ht Hk Hp Hs Ho).
  - intros e t' Hine Ht' Hk'. apply filter_In. split; [exact Hine|].
    rewrite (bad_tag_not_good_hit _ _ _ Ht' Hk'). reflexivity.
  - rewrite bump_zero. reflexivity.
  - intros g Hing Hg. split.
    + intro Hin'. apply filter_In in Hin'. destruct Hin' as [_ Hkeep].
      rewrite Hg in Hkeep. discriminate.
    + assert (Hpos : (1 <= List.length (filter (good_hit playerRect)
                                            (World.entities world)))%nat).
      { assert (Hf : In g (filter (good_hit playerRect) (World.entities world)))
          by (apply filter_In; split; assumption).
        destruct (filter (good_hit playerRect) (World.entities world));
          [destruct Hf | cbn [List.length]; lia]. }
      destruct (List.length (filter (good_hit playerRect) (World.entities world)))
        as [|k]; [lia|].
      cbn [bump]. pose proof (bump_ge k (0 + 1)). lra.
Qed.

Lemma collision_game_over_witness :
  exists world',
    collisionSystem Sample.host Sample.crowded (1 # 60) = Some world' /\
    Game.over (World.game world') = true /\
    In Sample.bad_on (World.entities world') /\
    World.score world' = World.score Sample.crowded + 1.
Proof.
  destruct (collision_game_over Sample.host Sample.crowded (1 # 60)
              Sample.hero Sample.heroRect Sample.bad_on
              (Tag.mk "bad") (Position.mk 150 450) (Size.mk 70 70))
    as (world' & Hrun & Hover & Hbad & Hscore & _);
    try reflexivity.
  - right. right. left. reflexivity.
  - exists world'. split; [exact Hrun|]. split; [exact Hover|].
    split; [|exact Hscore].
    apply (Hbad Sample.bad_on (Tag.mk "bad")); try reflexivity.
    right. right. left. reflexivity.
Defined.

(** ** The spawner stage *)

(** C3 (spawn gating).  While [time - spawn.last < spawn.interval] the
    spawner returns its input world.  Otherwise it returns the world with one
    entity appended and [spawn.last] set to [time]; the new entity is a block
    at [y = - BLOCK_SIZE] whose [falling] is [{baseSpeed: 160, speed: 160}]
    and whose tag is ["good"] or ["bad"]; nothing else changes. *)
Theorem spawn_gating (host : Host.t) (world : World.t) (dt : Q) :
  let last := Spawn.last (World.spawn world) in
  let interval := Spawn.interval (World.spawn world) in
  (World.time world - last < interval ->
   spawnerSystem host world dt = Some world) /\
  (~ World.time world - last < interval ->
   exists world' block x kind,
     spawnerSystem host world dt = Some world' /\
     World.entities world' = (World.entities world ++ [block])%list /\
     List.length (World.entities world') = S (List.length (World.entities world)) /\
     Components.position (Entity.components block)
       = Some (Position.mk x (- BLOCK_SIZE)) /\
     Components.size (Entity.components block)
       = Some (Size.mk BLOCK_SIZE BLOCK_SIZE) /\
     Components.falling (Entity.components block) = Some (Falling.mk 160 160) /\
     Components.tag (Entity.components block) = Some (Tag.mk kind) /\
     (kind = "good" \/ kind = "bad") /\
     Spawn.last (World.spawn world') = World.time world /\
     Spawn.baseInterval (World.spawn world') = Spawn.baseInterval (World.spawn world) /\
     Spawn.interval (World.spawn world') = interval /\
     Spawn.minInterval (World.spawn world') = Spawn.minInterval (World.spawn world) /\
     World.time world' = World.time world /\
     World.score world' = World.score world /\
     World.game world' = World.game world /\
     World.difficulty world' = World.difficulty world /\
     World.input world' = World.input world).
Proof.
  intros last interval. subst last interval. unfold spawnerSystem. split.
  - intro H. apply num_lt_true in H. rewrite H. reflexivity.
  - intro H.
    destruct (num_lt (World.time world - Spawn.last (World.spawn world))
                     (Spawn.interval (World.spawn world))) eqn:E.
    + apply num_lt_true in E. contradiction.
    + eexists. eexists. eexists.
      exists (if num_lt (Host.random_kind host) (7 # 10) then "bad" else "good")%string.
      split; [reflexivity|].
      cbn [World.with_spawn addEntity World.with_entities World.entities
           World.spawn World.time World.score World.game World.difficulty
           World.input Spawn.last Spawn.baseInterval Spawn.interval
           Spawn.minInterval createBlock Entity.components
           Components.position Components.size Components.falling
           Components.tag].
      repeat split.
      * rewrite length_app. cbn [List.length]. lia.
      * destruct (num_lt (Host.random_kind host) (7 # 10)); [right|left]; reflexivity.
Qed.

(** ** The difficulty stage *)

Lemma rescale_idempotent (m : Q) (e : Entity.t) :
  rescale m (rescale m e) = rescale m e.
Proof.
  unfold rescale.
  destruct (Components.falling (Entity.components e)) as [f|] eqn:Hf.
  - reflexivity.
  - rewrite Hf. reflexivity.
Qed.

(** C5 (difficulty idempotence).  The difficulty stage always returns, its
    result is a fixed point of the stage (a second application, at whatever
    [dt], changes nothing: no speed and no interval is compounded), every
    entity with a [falling] component gets
    [speed = baseSpeed * factor ^ floor (time / step)] with [baseSpeed] kept,
    the other entities are unchanged, and [spawn.interval] becomes
    [max (baseInterval * (1 / factor) ^ floor (time / step)) minInterval]. *)
Theorem difficulty_idempotent (host host' : Host.t) (world : World.t) (dt dt' : Q) :
  let step := Difficulty.step (World.difficulty world) in
  let factor := Difficulty.factor (World.difficulty world) in
  let level := Math_floor (World.time world / step) in
  exists world1,
    difficultySystem host world dt = Some world1 /\
    difficultySystem host' world1 dt' = Some world1 /\
    Spawn.interval (World.spawn world1) =
      Math_max (Spawn.baseInterval (World.spawn world) * Math_pow (1 / factor) level)
               (Spawn.minInterval (World.spawn world)) /\
    Forall2
      (fun e e1 =>
         match Components.falling (Entity.components e) with
         | None => e1 = e
         | Some f =>
             Components.falling (Entity.components e1) =
               Some (Falling.mk (Falling.baseSpeed f)
                                (Falling.baseSpeed f * Math_pow factor level))
         end)
      (World.entities world) (World.entities world1).
Proof.
  intros step factor level. subst step factor level.
  eexists. split; [reflexivity|].
  split; [|split].
  - unfold difficultySystem.
    cbn [World.with_spawn World.with_entities World.entities World.time
         World.spawn World.score World.game World.difficulty World.input
         Spawn.last Spawn.baseInterval Spawn.interval Spawn.minInterval].
    rewrite map_map.
    rewrite (map_ext _ _ (rescale_idempotent _)). reflexivity.
  - reflexivity.
  - cbn [World.with_spawn World.with_entities World.entities].
    induction (World.entities world) as [|e es IH]; cbn [map]; constructor.
    + unfold rescale.
      destruct (Components.falling (Entity.components e)) as [f|]; reflexivity.
    + exact IH.
Qed.

(** ** The movement stage *)

Lemma mapM_Forall2 {A B : Type} (f : A -> option B) (l : list A) (l' : list B) :
  mapM f l = Some l' -> Forall2 (fun a b => f a = Some b) l l'.
Proof.
  revert l'. induction l as [|a l IH]; intros l' H; cbn [mapM] in H.
  - injection H as <-. constructor.
  - destruct (f a) as [b|] eqn:Hb; [|discriminate]. cbn [bind] in H.
    destruct (mapM f l) as [bs|]; [|discriminate]. cbn [bind] in H.
    injection H as <-. constructor; [exact Hb | apply IH; reflexivity].
Qed.

Lemma mapM_total {A B : Type} (f : A -> option B) (l : list A) :
  (forall a, In a l -> exists b, f a = Some b) ->
  exists l', mapM f l = Some l'.
Proof.
  induction l as [|a l IH]; intro H; cbn [mapM].
  - eexists. reflexivity.
  - destruct (H a (or_introl eq_refl)) as [b Hb]. rewrite Hb. cbn [bind].
    destruct IH as [bs Hbs]; [intros a' Ha'; apply H; right; exact Ha'|].
    rewrite Hbs. cbn [bind]. eexists. reflexivity.
Qed.

Lemma mapM_id {A : Type} (f : A -> option A) (l : list A) :
  (forall a, In a l -> f a = Some a) -> mapM f l = Some l.
Proof.
  induction l as [|a l IH]; intro H; cbn [mapM]; [reflexivity|].
  rewrite (H a (or_introl eq_refl)). cbn [bind].
  rewrite IH; [reflexivity|]. intros a' Ha'. apply H. right. exact Ha'.
Qed.

Lemma with_entities_same (world : World.t) :
  World.with_entities (World.entities world) world = world.
Proof. destruct world. reflexivity. Qed.

Lemma movePlayer_spec (host : Host.t) (world : World.t) (dt : Q)
    (e e' : Entity.t) :
  movePlayer host world dt e = Some e' ->
  if is_player e
  then exists p,
         Components.position (Entity.components e) = Some p /\
         e' = with_position (Position.mk (clampedX host world dt p) (Position.y p)) e
  else e' = e.
Proof.
  unfold movePlayer. destruct (is_player e); cbn [negb].
  - destruct (Components.position (Entity.components e)) as [p|];
      cbn [bind]; [|discriminate].
    intro H. injection H as <-. exists p. split; reflexivity.
  - intro H. injection H as <-. reflexivity.
Qed.

(** The movement stage on a world whose players all have a position. *)
Lemma movementSystem_spec (host : Host.t) (world : World.t) (dt : Q) :
  players_placed (World.entities world) = true ->
  exists es',
    movementSystem host world dt = Some (World.with_entities es' world) /\
    Forall2
      (fun e e' =>
         if is_player e
         then exists p,
                Components.position (Entity.components e) = Some p /\
                e' = with_position
                       (Position.mk (clampedX host world dt p) (Position.y p)) e
         else e' = e)
      (World.entities world) es'.
Proof.
  intro Hplaced. unfold movementSystem.
  destruct (mapM_total (movePlayer host world dt) (World.entities world))
    as [es' Hes'].
  - intros e Hin. unfold players_placed in Hplaced.
    rewrite forallb_forall in Hplaced. specialize (Hplaced e Hin).
    unfold movePlayer, placed in *. destruct (is_player e); cbn [negb implb] in *.
    + destruct (Components.position (Entity.components e)); [|discriminate].
      cbn [bind]. eexists. reflexivity.
    + eexists. reflexivity.
  - rewrite Hes'. cbn [bind]. exists es'. split; [reflexivity|].
    apply mapM_Forall2 in Hes'. clear Hplaced.
    induction Hes' as [|e e' es es' He _ IH]; constructor.
    + exact (movePlayer_spec _ _ _ _ _ He).
    + exact IH.
Qed.

Lemma clampedX_range (host : Host.t) (world : World.t) (dt : Q) (p : Position.t) :
  0 <= clampedX host world dt p /\
  (PLAYER_SIZE <= Canvas.width (Host.canvas host) ->
   clampedX host world dt p <= Canvas.width (Host.canvas host) - PLAYER_SIZE).
Proof.
  unfold clampedX. split; [apply Math_max_lower|].
  intro H. apply Math_max_least; [lra | apply Math_min_upper].
Qed.

(** C4, as the code has it (clamping).  On a world whose players all have a
    position, the movement stage returns a world that differs from its input
    in the entities only, entity by entity: a non-player entity is unchanged,
    and a player entity keeps its id, size, falling and tag and gets the
    position with [y] as before and
    [x = max 0 (min (canvas.width - 150) (old x + velocity * dt))], the
    velocity being -350 with only left held, 350 with only right held and 0
    with both or neither.  The new [x] is never negative, and it is at most
    [canvas.width - 150] whenever the canvas is at least 150 wide. *)
Theorem movement_clamp (host : Host.t) (world : World.t) (dt : Q) :
  players_placed (World.entities world) = true ->
  (velocity (Some (Input.mk true false)) = - (350) /\
   velocity (Some (Input.mk false true)) = 350 /\
   velocity (Some (Input.mk true true)) = 0 /\
   velocity (Some (Input.mk false false)) = 0) /\
  exists world',
    movementSystem host world dt = Some world' /\
    World.time world' = World.time world /\
    World.spawn world' = World.spawn world /\
    World.score world' = World.score world /\
    World.game world' = World.game world /\
    World.difficulty world' = World.difficulty world /\
    World.input world' = World.input world /\
    Forall2
      (fun e e' =>
         if is_player e
         then exists p x',
                Components.position (Entity.components e) = Some p /\
                Components.position (Entity.components e')
                  = Some (Position.mk x' (Position.y p)) /\
                Entity.id e' = Entity.id e /\
                Components.size (Entity.components e')
                  = Components.size (Entity.components e) /\
                Components.falling (Entity.components e')
                  = Components.falling (Entity.components e) /\
                Components.tag (Entity.components e')
                  = Components.tag (Entity.components e) /\
                x' = Math_max 0
                       (Math_min (Canvas.width (Host.canvas host) - 150)
                                 (Position.x p + velocity (World.input world) * dt)) /\
                0 <= x' /\
                (150 <= Canvas.width (Host.canvas host) ->
                 x' <= Canvas.width (Host.canvas host) - 150)
         else e' = e)
      (World.entities world) (World.entities world').
Proof.
  intro Hplaced. split; [repeat split|].
  destruct (movementSystem_spec host world dt Hplaced) as (es' & Hrun & Hall).
  exists (World.with_entities es' world). split; [exact Hrun|].
  cbn [World.with_entities World.entities World.time World.spawn World.score
       World.game World.difficulty World.input].
  repeat (split; [reflexivity|]).
  eapply Forall2_impl; [|exact Hall].
  intros e e'. cbv beta. destruct (is_player e); [|trivial].
  intros (p & Hp & ->). exists p, (clampedX host world dt p).
  split; [exact Hp|]. repeat (split; [reflexivity|]).
  exact (clampedX_range host world dt p).
Qed.

Lemma movement_clamp_witness :
  exists world' e' p',
    movementSystem Sample.host Sample.pushed (1 # 10) = Some world' /\
    World.entities world' = [e'; Sample.bad_on] /\
    Components.position (Entity.components e') = Some p' /\
    Position.x p' == 135 /\ Position.y p' = 430 /\
    Components.size (Entity.components e') = Some (Size.mk 150 150).
Proof.
  destruct (movement_clamp Sample.host Sample.pushed (1 # 10) eq_refl)
    as (_ & world' & Hrun & _).
  vm_compute in Hrun. injection Hrun as <-.
  eexists. eexists. eexists.
  split; [reflexivity|]. split; [reflexivity|]. split; [reflexivity|].
  split; [reflexivity|]. split; reflexivity.
Defined.

(** C4, as the claim has it, fails: on a canvas 100 wide the movement stage
    puts the player at [x = 0], which is not in
    [[0, canvas.width - 150]] = [[0, -50]]. *)
Lemma movement_clamp_narrow_canvas :
  exists world' e,
    0 <= 0 /\
    movementSystem Sample.narrow_host (Sample.within [Sample.hero]) 0 = Some world' /\
    World.entities world' = [e] /\
    Components.position (Entity.components e) = Some (Position.mk 0 430) /\
    ~ (0 <= 0 /\
       0 <= Canvas.width (Host.canvas Sample.narrow_host) - PLAYER_SIZE).
Proof.
  eexists. eexists.
  split; [apply Qle_refl|].
  split; [reflexivity|]. split; [reflexivity|]. split; [reflexivity|].
  intros [_ H]. revert H. apply Qlt_not_le. reflexivity.
Qed.

(** C10 (the clamp uses the constant 150 and takes the lower bound last).
    On a world whose players all have a position, the movement stage returns
    a world in which each player has the position
    [x = max 0 (min (canvas.width - 150) (old x + dx * dt))], [y] as before,
    with the constant [PLAYER_SIZE = 150] whatever the player's own [size]
    is, that size being kept; when [canvas.width < 150] the player's
    position is [x = 0], which is greater than [canvas.width - 150]. *)
Theorem movement_clamp_constant (host : Host.t) (world : World.t) (dt : Q) :
  players_placed (World.entities world) = true ->
  PLAYER_SIZE = 150 /\
  exists world',
    movementSystem host world dt = Some world' /\
    Forall2
      (fun e e' =>
         if is_player e
         then exists p,
                Components.position (Entity.components e) = Some p /\
                Components.position (Entity.components e')
                  = Some (Position.mk
                            (Math_max 0
                               (Math_min (Canvas.width (Host.canvas host) - 150)
                                  (Position.x p + velocity (World.input world) * dt)))
                            (Position.y p)) /\
                Components.size (Entity.components e')
                  = Components.size (Entity.components e) /\
                (Canvas.width (Host.canvas host) < 150 ->
                 Components.position (Entity.components e')
                   = Some (Position.mk 0 (Position.y p)) /\
                 Canvas.width (Host.canvas host) - 150 < 0)
         else e' = e)
      (World.entities world) (World.entities world').
Proof.
  intro Hplaced. split; [reflexivity|].
  destruct (movementSystem_spec host world dt Hplaced) as (es' & Hrun & Hall).
  exists (World.with_entities es' world). split; [exact Hrun|].
  cbn [World.with_entities World.entities].
  eapply Forall2_impl; [|exact Hall].
  intros e e'. cbv beta. destruct (is_player e); [|trivial].
  intros (p & Hp & ->). exists p.
  split; [exact Hp|]. split; [reflexivity|]. split; [reflexivity|].
  intro Hnarrow.
  assert (Hneg : Canvas.width (Host.canvas host) - PLAYER_SIZE < 0)
    by (unfold PLAYER_SIZE; lra).
  split; [|exact Hneg].
  unfold with_position. cbn [Entity.components Components.position].
  unfold clampedX. rewrite (clamp_negative_bound _ _ Hneg). reflexivity.
Qed.

Lemma movement_clamp_constant_witness :
  exists world',
    movementSystem Sample.narrow_host (Sample.within [Sample.hero]) (1 # 10)
      = Some world' /\
    World.entities world' =
      [Entity.mk "player"
         (Components.mk (Some (Position.mk 0 430)) (Some (Size.mk 150 150))
                        None None)].
Proof.
  destruct (movement_clamp_constant Sample.narrow_host
              (Sample.within [Sample.hero]) (1 # 10) eq_refl)
    as (_ & world' & Hrun & Hall).
  exists world'. split; [exact Hrun|].
  vm_compute in Hrun. injection Hrun as <-. reflexivity.
Defined.

Lemma not_player (es : list Entity.t) :
  (forall e, In e es -> Entity.id e <> "player") ->
  forall e, In e es -> is_player e = false.
Proof.
  intros H e Hin. unfold is_player. apply String.eqb_neq. exact (H e Hin).
Qed.

Lemma find_no_player (es : list Entity.t) :
  (forall e, In e es -> is_player e = false) -> find is_player es = None.
Proof.
  induction es as [|e es IH]; intro H; cbn [find]; [reflexivity|].
  rewrite (H e (or_introl eq_refl)). apply IH.
  intros e' He'. apply H. right. exact He'.
Qed.

(** C9 (defensive fallbacks).  On a world without an entity of id
    ["player"], the movement stage and the collision stage both return the
    world they were given, without an exception.  And on any world, the
    movement stage without [world.input] does what it does with
    [world.input = {left: false, right: false}] (the result differing only in
    that [input] is still absent). *)
Theorem missing_player_noop (host : Host.t) (world : World.t) (dt : Q) :
  ((forall e, In e (World.entities world) -> Entity.id e <> "player") ->
   movementSystem host world dt = Some world /\
   collisionSystem host world dt = Some world) /\
  movementSystem host (World.with_input None world) dt =
    option_map (World.with_input None)
      (movementSystem host
         (World.with_input (Some (Input.mk false false)) world) dt).
Proof.
  split.
  - intro Hnone. pose proof (not_player _ Hnone) as Hnp. split.
    + unfold movementSystem. rewrite mapM_id.
      * cbn [bind]. rewrite with_entities_same. reflexivity.
      * intros e Hin. unfold movePlayer. rewrite (Hnp e Hin). reflexivity.
    + unfold collisionSystem. rewrite (find_no_player _ Hnp).
      destruct (Game.over (World.game world)); reflexivity.
  - unfold movementSystem.
    change (movePlayer host (World.with_input None world) dt)
      with (movePlayer host (World.with_input (Some (Input.mk false false)) world) dt).
    cbn [World.with_input World.entities].
    destruct (mapM _ (World.entities world)); reflexivity.
Qed.

(** ** The cleanup stage *)

Lemma filterSt_filter {A S : Type} (f : A -> S -> option (bool * S))
    (keep : A -> bool) (l : list A) :
  (forall a s r, In a l -> f a s = Some r -> fst r = keep a) ->
  forall s r, filterSt f l s = Some r -> fst r = filter keep l.
Proof.
  induction l as [|a l IH]; intros Hf s r H; cbn [filterSt filter] in *.
  - injection H as <-. reflexivity.
  - destruct (f a s) as [r0|] eqn:Hr0; [|discriminate]. cbn [bind] in H.
    destruct (filterSt f l (snd r0)) as [t|] eqn:Ht; [|discriminate].
    cbn [bind] in H. injection H as <-. cbn [fst].
    rewrite <- (Hf a s r0 (or_introl eq_refl) Hr0).
    rewrite (IH (fun a' s' r' Hin => Hf a' s' r' (or_intror Hin)) _ _ Ht).
    reflexivity.
Qed.

Lemma onScreen_kept (host : Host.t) (e : Entity.t) (b : bool) :
  onScreen host e = Some b -> b = kept host e.
Proof.
  unfold onScreen, kept.
  destruct (Components.tag (Entity.components e)).
  - destruct (Components.position (Entity.components e)); [|discriminate].
    destruct (Components.size (Entity.components e)); [|discriminate].
    cbn [bind]. congruence.
  - congruence.
Qed.

Lemma cleanupSystem_sound (host : Host.t) (world world' : World.t) (dt : Q) :
  cleanupSystem host world dt = Some world' ->
  world' = World.with_entities (filter (kept host) (World.entities world)) world.
Proof.
  unfold cleanupSystem.
  destruct (filterSt _ (World.entities world) tt) as [r|] eqn:Hr; [|discriminate].
  cbn [bind]. intro H. injection H as <-. f_equal.
  apply (filterSt_filter _ (kept host) _) in Hr; [exact Hr|].
  intros a s r0 _. destruct (onScreen host a) as [b|] eqn:Hb; [|discriminate].
  cbn [bind]. intro H. injection H as <-. exact (onScreen_kept _ _ _ Hb).
Qed.

Lemma cleanupSystem_total (host : Host.t) (world : World.t) (dt : Q) :
  blocks_boxed (World.entities world) = true ->
  exists world', cleanupSystem host world dt = Some world'.
Proof.
  unfold cleanupSystem, blocks_boxed.
  assert (H : forall es, forallb (fun e => implb (tagged e) (boxed e)) es = true ->
              exists r, filterSt (fun e (_ : unit) => b <- onScreen host e ;; Some (b, tt))
                                 es tt = Some r).
  { induction es as [|e es IH]; intro H; cbn [filterSt].
    - eexists. reflexivity.
    - cbn [forallb] in H. apply andb_true_iff in H. destruct H as [He Hes].
      assert (Hon : exists b, onScreen host e = Some b).
      { unfold onScreen.
        destruct (Components.tag (Entity.components e)) as [t|] eqn:Ht.
        - destruct (implb_boxed e He t Ht) as (p & s & Hp & Hs).
          rewrite Hp, Hs. cbn [bind]. eexists. reflexivity.
        - eexists. reflexivity. }
      destruct Hon as [b Hb]. rewrite Hb. cbn [bind snd].
      destruct (IH Hes) as [r Hr]. rewrite Hr. cbn [bind].
      eexists. reflexivity. }
  intro Hb. destruct (H _ Hb) as [r Hr]. rewrite Hr. cbn [bind].
  eexists. reflexivity.
Qed.

(** C8 (cleanup boundary).  On a world whose blocks all have a position and
    a size, the cleanup stage returns the world with some entities removed:
    an untagged entity is always kept, and a tagged entity is removed exactly
    when [y >= canvas.height + size.h]; so it is removed at
    [y = canvas.height + size.h] and kept at [y = canvas.height + size.h - 1]
    and at any other smaller [y]. *)
Theorem cleanup_boundary (host : Host.t) (world : World.t) (dt : Q) :
  blocks_boxed (World.entities world) = true ->
  exists world',
    cleanupSystem host world dt = Some world' /\
    world' = World.with_entities (World.entities world') world /\
    (forall e, In e (World.entities world') -> In e (World.entities world)) /\
    forall e,
      In e (World.entities world) ->
      (Components.tag (Entity.components e) = None ->
       In e (World.entities world')) /\
      (forall t p s,
          Components.tag (Entity.components e) = Some t ->
          Components.position (Entity.components e) = Some p ->
          Components.size (Entity.components e) = Some s ->
          let bottom := Canvas.height (Host.canvas host) + Size.h s in
          (~ In e (World.entities world') <-> bottom <= Position.y p) /\
          (In e (World.entities world') <-> Position.y p < bottom) /\
          (Position.y p == bottom -> ~ In e (World.entities world')) /\
          (Position.y p == bottom - 1 -> In e (World.entities world'))).
Proof.
  intro Hboxed.
  destruct (cleanupSystem_total host world dt Hboxed) as [world' Hrun].
  exists world'. split; [exact Hrun|].
  apply cleanupSystem_sound in Hrun. subst world'.
  cbn [World.with_entities World.entities World.time World.spawn World.score
       World.game World.difficulty World.input].
  split; [reflexivity|].
  split; [intros e He; apply filter_In in He; tauto|].
  intros e Hin. split.
  - intro Ht. apply filter_In. split; [exact Hin|]. unfold kept. rewrite Ht.
    reflexivity.
  - intros t p s Ht Hp Hs.
    set (bottom := Canvas.height (Host.canvas host) + Size.h s).
    assert (Hkept : kept host e = num_lt (Position.y p) bottom)
      by (unfold kept; rewrite Ht, Hp, Hs; reflexivity).
    assert (Hiff : In e (filter (kept host) (World.entities world))
                   <-> Position.y p < bottom).
    { rewrite filter_In, Hkept, num_lt_true. tauto. }
    split; [|split; [exact Hiff|split]].
    + rewrite Hiff. split; [apply Qnot_lt_le | intros H1 H2; lra].
    + intros Heq H. apply Hiff in H. lra.
    + intro Heq. apply Hiff. lra.
Qed.

Lemma cleanup_boundary_witness :
  exists world',
    cleanupSystem Sample.host
      (Sample.within [Sample.hero; Sample.fallen; Sample.falling_out]) (1 # 60)
      = Some world' /\
    In Sample.hero (World.entities world') /\
    ~ In Sample.fallen (World.entities world') /\
    In Sample.falling_out (World.entities world').
Proof.
  destruct (cleanup_boundary Sample.host
              (Sample.within [Sample.hero; Sample.fallen; Sample.falling_out])
              (1 # 60) eq_refl)
    as (world' & Hrun & _ & _ & Hall).
  exists world'. split; [exact Hrun|]. split; [|split].
  - apply (Hall Sample.hero); [left; reflexivity | reflexivity].
  - apply (proj2 (Hall Sample.fallen (or_intror (or_introl eq_refl)))
             (Tag.mk "bad") (Position.mk 10 670) (Size.mk 70 70)
             eq_refl eq_refl eq_refl).
    reflexivity.
  - apply (proj2 (Hall Sample.falling_out
                    (or_intror (or_intror (or_introl eq_refl))))
             (Tag.mk "good") (Position.mk 10 669) (Size.mk 70 70)
             eq_refl eq_refl eq_refl).
    reflexivity.
Defined.

(** ** What each stage returns when it returns *)

Lemma pickup_sound (playerRect : Rect.t) (e : Entity.t) (earned : Q)
    (r : bool * Q) :
  pickup playerRect e earned = Some r ->
  r = (negb (good_hit playerRect e),
       if good_hit playerRect e then earned + 1 else earned).
Proof.
  unfold pickup, good_hit, overlapping, is_good.
  destruct (Components.tag (Entity.components e)) as [t|];
    [|intro H; injection H as <-; reflexivity].
  destruct (Tag.kind t =? "good")%string.
  - destruct (hitboxOf e GOOD_MARGINS) as [blockRect|]; cbn [bind]; [|discriminate].
    cbn [andb]. destruct (rectsOverlap playerRect blockRect); cbn [negb]; congruence.
  - destruct (hitboxOf e BAD_MARGINS) as [blockRect|]; cbn [bind]; [|discriminate].
    assert (Hno : match hitboxOf e GOOD_MARGINS with
                  | Some blockRect0 => false && rectsOverlap playerRect blockRect0
                  | None => false
                  end = false)
      by (destruct (hitboxOf e GOOD_MARGINS); reflexivity).
    rewrite Hno. destruct (rectsOverlap playerRect blockRect); cbn [negb]; congruence.
Qed.

Lemma filterSt_pickup_sound (playerRect : Rect.t) (es : list Entity.t) :
  forall earned r,
    filterSt (pickup playerRect) es earned = Some r ->
    r = (filter (fun e => negb (good_hit playerRect e)) es,
         bump (List.length (filter (good_hit playerRect) es)) earned).
Proof.
  induction es as [|e es IH]; intros earned r H; cbn [filterSt filter] in *.
  - injection H as <-. reflexivity.
  - destruct (pickup playerRect e earned) as [r0|] eqn:Hr0; [|discriminate].
    cbn [bind] in H.
    destruct (filterSt (pickup playerRect) es (snd r0)) as [t|] eqn:Ht;
      [|discriminate].
    cbn [bind] in H. injection H as <-.
    apply pickup_sound in Hr0. subst r0. cbn [fst snd] in *.
    apply IH in Ht. subst t. cbn [fst snd].
    destruct (good_hit playerRect e); reflexivity.
Qed.

Lemma hitsBad_sound (playerRect : Rect.t) (e : Entity.t) (b : bool) :
  hitsBad playerRect e = Some b -> b = bad_hit playerRect e.
Proof.
  unfold hitsBad, bad_hit, overlapping, is_bad.
  destruct (Components.tag (Entity.components e)) as [t|];
    [|intro H; injection H as <-; reflexivity].
  destruct (Tag.kind t =? "bad")%string; cbn [negb andb].
  - destruct (hitboxOf e BAD_MARGINS); cbn [bind]; congruence.
  - destruct (hitboxOf e BAD_MARGINS); congruence.
Qed.

Lemma someM_sound {A : Type} (f : A -> option bool) (g : A -> bool) (l : list A) :
  (forall a b, f a = Some b -> b = g a) ->
  forall b, someM f l = Some b -> b = existsb g l.
Proof.
  intro Hf. induction l as [|a l IH]; intros b H; cbn [someM existsb] in *.
  - congruence.
  - destruct (f a) as [b0|] eqn:Hb0; [|discriminate]. cbn [bind] in H.
    rewrite <- (Hf a b0 Hb0). destruct b0; cbn [orb]; [congruence|].
    exact (IH b H).
Qed.

(** The collision stage either hands back its input, or it ran on a running
    game with a player that has a hit-rectangle. *)
Lemma collisionSystem_sound (host : Host.t) (world world' : World.t) (dt : Q) :
  collisionSystem host world dt = Some world' ->
  world' = world \/
  (Game.over (World.game world) = false /\
   exists player playerRect,
     find is_player (World.entities world) = Some player /\
     hitboxOf player PLAYER_MARGINS = Some playerRect /\
     world' =
       World.mk
         (filter (fun e => negb (good_hit playerRect e)) (World.entities world))
         (World.time world) (World.spawn world)
         (World.score world +
            bump (List.length (filter (good_hit playerRect) (World.entities world))) 0)
         (Game.mk (existsb (bad_hit playerRect) (World.entities world)))
         (World.difficulty world) (World.input world)).
Proof.
  unfold collisionSystem.
  destruct (Game.over (World.game world)) eqn:Hover; [left; congruence|].
  destruct (find is_player (World.entities world)) as [player|] eqn:Hfind;
    [|left; congruence].
  destruct (hitboxOf player PLAYER_MARGINS) as [playerRect|] eqn:Hrect;
    cbn [bind]; [|discriminate].
  destruct (filterSt (pickup playerRect) (World.entities world) 0) as [r|] eqn:Hr;
    cbn [bind]; [|discriminate].
  destruct (someM (hitsBad playerRect) (World.entities world)) as [hitBad|] eqn:Hb;
    cbn [bind]; [|discriminate].
  intro H. injection H as <-. right. split; [reflexivity|].
  exists player, playerRect. split; [reflexivity|]. split; [exact Hrect|].
  apply filterSt_pickup_sound in Hr. subst r. cbn [fst snd].
  apply (someM_sound _ (bad_hit playerRect)) in Hb;
    [|intros a b; apply hitsBad_sound].
  subst hitBad. reflexivity.
Qed.

(** ** Invariants of the entity list *)

Lemma shape_same (e e' : Entity.t) :
  shape e' = shape e ->
  is_player e' = is_player e /\ tagged e' = tagged e /\ boxed e' = boxed e.
Proof.
  unfold shape, is_player. intro H. injection H as Hid Ht Hb.
  rewrite Hid, Ht, Hb. repeat split.
Qed.

Lemma shape_with_position (q : Position.t) (e : Entity.t) :
  placed e = true -> shape (with_position q e) = shape e.
Proof.
  unfold shape, with_position, placed, tagged, boxed. cbn.
  destruct (Components.position (Entity.components e)); [reflexivity|discriminate].
Qed.

Lemma Forall2_same {A : Type} (R : A -> A -> Prop) (l : list A) :
  (forall a, R a a) -> Forall2 R l l.
Proof. intro H. induction l; constructor; auto. Qed.

Lemma Forall2_map_r {A B : Type} (R : A -> B -> Prop) (f : A -> B) (l : list A) :
  (forall a, R a (f a)) -> Forall2 R l (map f l).
Proof. intro H. induction l; cbn [map]; constructor; auto. Qed.

Lemma reshaped_invariants (es es' : list Entity.t) :
  Forall2 (fun e e' => shape e' = shape e) es es' ->
  blocks_boxed es' = blocks_boxed es /\
  players_boxed es' = players_boxed es /\
  players_untagged es' = players_untagged es /\
  count_players es' = count_players es.
Proof.
  unfold blocks_boxed, players_boxed, players_untagged, count_players.
  induction 1 as [|e e' es es' He _ IH]; [repeat split|].
  destruct (shape_same _ _ He) as (Hp & Ht & Hb).
  destruct IH as (IH1 & IH2 & IH3 & IH4).
  cbn [forallb filter]. rewrite Hp, Ht, Hb, IH1, IH2, IH3.
  repeat split. destruct (is_player e); cbn [List.length]; congruence.
Qed.

Lemma forallb_filter {A : Type} (P keep : A -> bool) (l : list A) :
  forallb P l = true -> forallb P (filter keep l) = true.
Proof.
  rewrite !forallb_forall. intros H a Ha. apply filter_In in Ha. apply H, Ha.
Qed.

Lemma filter_keeps_players (keep : Entity.t -> bool) (es : list Entity.t) :
  (forall e, tagged e = false -> keep e = true) ->
  players_untagged es = true ->
  count_players (filter keep es) = count_players es.
Proof.
  unfold players_untagged, count_players. intro Hkeep.
  induction es as [|e es IH]; intro H; [reflexivity|].
  cbn [forallb] in H. apply andb_true_iff in H. destruct H as [He Hes].
  cbn [filter]. destruct (is_player e) eqn:Hp.
  - cbn [implb] in He. apply negb_true_iff in He.
    rewrite (Hkeep e He). cbn [filter]. rewrite Hp. cbn [List.length].
    f_equal. exact (IH Hes).
  - destruct (keep e); [cbn [filter]; rewrite Hp|]; exact (IH Hes).
Qed.

Lemma entities_step_invariants (es es' : list Entity.t) :
  entities_step es es' ->
  (blocks_boxed es = true -> blocks_boxed es' = true) /\
  (players_boxed es = true -> players_boxed es' = true) /\
  (players_untagged es = true ->
   players_untagged es' = true /\ count_players es' = count_players es).
Proof.
  destruct 1 as [es es' Hshape | es id x kind Hid | es keep Hkeep].
  - destruct (reshaped_invariants _ _ Hshape) as (H1 & H2 & H3 & H4).
    rewrite H1, H2, H3, H4. tauto.
  - unfold blocks_boxed, players_boxed, players_untagged, count_players.
    assert (Hp : is_player (createBlock id x kind) = false) by exact Hid.
    rewrite !forallb_app, filter_app, length_app.
    cbn [forallb filter]. rewrite Hp.
    change (tagged (createBlock id x kind)) with true.
    change (boxed (createBlock id x kind)) with true.
    cbn [implb andb List.length].
    rewrite !andb_true_r, Nat.add_0_r. tauto.
  - split; [apply forallb_filter|]. split; [apply forallb_filter|].
    intro H. split; [apply forallb_filter, H|].
    apply filter_keeps_players; assumption.
Qed.

Lemma untagged_no_good_hit (playerRect : Rect.t) (e : Entity.t) :
  tagged e = false -> negb (good_hit playerRect e) = true.
Proof.
  unfold tagged, good_hit, overlapping.
  destruct (Components.tag (Entity.components e)); [discriminate|reflexivity].
Qed.

Lemma untagged_kept (host : Host.t) (e : Entity.t) :
  tagged e = false -> kept host e = true.
Proof.
  unfold tagged, kept.
  destruct (Components.tag (Entity.components e)); [discriminate|reflexivity].
Qed.

Lemma spawnerSystem_sound (host : Host.t) (world world' : World.t) (dt : Q) :
  spawnerSystem host world dt = Some world' ->
  world' = world \/
  exists id x kind,
    (id =? "player")%string = false /\
    world' =
      World.with_spawn
        (Spawn.mk (World.time world) (Spawn.baseInterval (World.spawn world))
                  (Spawn.interval (World.spawn world))
                  (Spawn.minInterval (World.spawn world)))
        (addEntity world (createBlock id x kind)).
Proof.
  unfold spawnerSystem.
  destruct (num_lt _ _); intro H; injection H as <-; [left; reflexivity|].
  right. eexists. eexists. eexists. split; [|reflexivity].
  destruct (num_lt (Host.random_kind host) (7 # 10)); reflexivity.
Qed.

Lemma movementSystem_sound (host : Host.t) (world world' : World.t) (dt : Q) :
  movementSystem host world dt = Some world' ->
  exists es',
    world' = World.with_entities es' world /\
    Forall2 (fun e e' => shape e' = shape e) (World.entities world) es'.
Proof.
  unfold movementSystem.
  destruct (mapM _ (World.entities world)) as [es'|] eqn:Hes'; [|discriminate].
  cbn [bind]. intro H. injection H as <-. exists es'. split; [reflexivity|].
  apply mapM_Forall2 in Hes'. eapply Forall2_impl; [|exact Hes'].
  intros e e' He. apply movePlayer_spec in He.
  destruct (is_player e); [|congruence].
  destruct He as (p & Hp & ->). apply shape_with_position.
  unfold placed. rewrite Hp. reflexivity.
Qed.

Lemma shape_fall (dt : Q) (e : Entity.t) : shape (fall dt e) = shape e.
Proof.
  unfold fall.
  destruct (Components.falling (Entity.components e)); [|reflexivity].
  destruct (Components.position (Entity.components e)) eqn:Hp; [|reflexivity].
  apply shape_with_position. unfold placed. rewrite Hp. reflexivity.
Qed.

Lemma shape_rescale (m : Q) (e : Entity.t) : shape (rescale m e) = shape e.
Proof.
  unfold rescale.
  destruct (Components.falling (Entity.components e)); reflexivity.
Qed.

(** ** Stage by stage *)

Lemma entities_step_refl (es : list Entity.t) : entities_step es es.
Proof. apply reshaped, Forall2_same. reflexivity. Qed.

Lemma stage_entities (sys : System) (host : Host.t) (world world' : World.t) (dt : Q) :
  In sys stages ->
  sys host world dt = Some world' ->
  entities_step (World.entities world) (World.entities world').
Proof.
  intros Hin Hrun. each_stage Hin.
  - injection Hrun as <-. apply entities_step_refl.
  - injection Hrun as <-. apply entities_step_refl.
  - apply movementSystem_sound in Hrun. destruct Hrun as (es' & -> & Hshape).
    apply reshaped, Hshape.
  - apply spawnerSystem_sound in Hrun.
    destruct Hrun as [-> | (id & x & kind & Hid & ->)].
    + apply entities_step_refl.
    + apply spawned, Hid.
  - injection Hrun as <-. apply reshaped, Forall2_map_r. apply shape_fall.
  - injection Hrun as <-. apply reshaped, Forall2_map_r. apply shape_rescale.
  - apply collisionSystem_sound in Hrun.
    destruct Hrun as [-> | (_ & player & playerRect & _ & _ & ->)].
    + apply entities_step_refl.
    + apply filtered. apply untagged_no_good_hit.
  - apply cleanupSystem_sound in Hrun. subst world'.
    apply filtered. apply untagged_kept.
Qed.

Lemma progress_refl (world : World.t) : progress world world.
Proof. unfold progress. repeat split; auto; apply Qle_refl. Qed.

Lemma progress_trans (w1 w2 w3 : World.t) :
  progress w1 w2 -> progress w2 w3 -> progress w1 w3.
Proof.
  unfold progress. intros (Ht1 & Hs1 & Ho1) (Ht2 & Hs2 & Ho2).
  split; [lra|]. split; [lra|].
  intro H. destruct (Ho1 H) as [E1 O1]. destruct (Ho2 O1) as [E2 O2].
  split; [congruence | exact O2].
Qed.

(** Every stage but the collision stage leaves [score] and [game] alone. *)
Lemma stage_score (sys : System) (host : Host.t) (world world' : World.t) (dt : Q) :
  In sys [timeSystem; inputSystem; movementSystem; spawnerSystem;
          fallingSystem; difficultySystem; cleanupSystem] ->
  sys host world dt = Some world' ->
  World.score world' = World.score world /\
  World.game world' = World.game world /\
  (World.time world' = World.time world \/
   World.time world' = World.time world + dt).
Proof.
  intros Hin Hrun. cbn [In] in Hin.
  repeat (destruct Hin as [Hin | Hin]; [subst|]); [..|destruct Hin].
  - injection Hrun as <-. cbn. auto.
  - injection Hrun as <-. cbn. auto.
  - apply movementSystem_sound in Hrun. destruct Hrun as (es' & -> & _).
    cbn. auto.
  - apply spawnerSystem_sound in Hrun.
    destruct Hrun as [-> | (id & x & kind & _ & ->)]; cbn; auto.
  - injection Hrun as <-. cbn. auto.
  - injection Hrun as <-. cbn. auto.
  - apply cleanupSystem_sound in Hrun. subst world'. cbn. auto.
Qed.

Lemma stage_progress (sys : System) (host : Host.t) (world world' : World.t) (dt : Q) :
  In sys stages ->
  0 <= dt ->
  sys host world dt = Some world' ->
  progress world world'.
Proof.
  intros Hin Hdt Hrun.
  assert (Hothers :
            World.score world' = World.score world /\
            World.game world' = World.game world /\
            (World.time world' = World.time world \/
             World.time world' = World.time world + dt) ->
            progress world world').
  { intros (Hs & Hg & Ht). unfold progress. rewrite Hs, Hg.
    split; [destruct Ht as [-> | ->]; lra|].
    split; [apply Qle_refl | auto]. }
  each_stage Hin;
    try (apply Hothers; eapply stage_score; [|exact Hrun]; cbn [In]; tauto).
  apply collisionSystem_sound in Hrun.
  destruct Hrun as [-> | (Hover & player & playerRect & _ & _ & ->)].
  - apply progress_refl.
  - unfold progress. cbn [World.time World.score World.game Game.over].
    split; [apply Qle_refl|]. split; [|congruence].
    pose proof (bump_ge (List.length (filter (good_hit playerRect)
                                            (World.entities world))) 0).
    lra.
Qed.

Lemma boxed_placed (e : Entity.t) : boxed e = true -> placed e = true.
Proof.
  unfold boxed, placed.
  destruct (Components.position (Entity.components e)); [reflexivity|discriminate].
Qed.

Lemma players_boxed_placed (es : list Entity.t) :
  players_boxed es = true -> players_placed es = true.
Proof.
  unfold players_boxed, players_placed. rewrite !forallb_forall.
  intros H e Hin. specialize (H e Hin).
  destruct (is_player e); cbn [implb] in *; [apply boxed_placed, H | reflexivity].
Qed.

Lemma boxed_hitbox (e : Entity.t) (m : Margins.t) :
  boxed e = true -> exists r, hitboxOf e m = Some r.
Proof.
  unfold boxed, hitboxOf.
  destruct (Components.position (Entity.components e)); [|discriminate].
  destruct (Components.size (Entity.components e)); [|discriminate].
  cbn [bind]. eexists. reflexivity.
Qed.

Lemma collisionSystem_total (host : Host.t) (world : World.t) (dt : Q) :
  well_formed world = true ->
  exists world', collisionSystem host world dt = Some world'.
Proof.
  unfold well_formed. intro H. apply andb_true_iff in H. destruct H as [Hb Hp].
  destruct (Game.over (World.game world)) eqn:Hover.
  - exists world. unfold collisionSystem. rewrite Hover. reflexivity.
  - destruct (find is_player (World.entities world)) as [player|] eqn:Hfind.
    + destruct (find_some _ _ Hfind) as [Hin Hpl].
      unfold players_boxed in Hp. rewrite forallb_forall in Hp.
      specialize (Hp player Hin). rewrite Hpl in Hp. cbn [implb] in Hp.
      destruct (boxed_hitbox player PLAYER_MARGINS Hp) as [playerRect Hrect].
      eexists. exact (collisionSystem_running _ _ _ _ _ Hover Hfind Hrect Hb).
    + exists world. unfold collisionSystem. rewrite Hover, Hfind. reflexivity.
Qed.

(** No stage raises on a well-formed world, and its result is well-formed. *)
Lemma stage_total (sys : System) (host : Host.t) (world : World.t) (dt : Q) :
  In sys stages ->
  well_formed world = true ->
  exists world', sys host world dt = Some world' /\ well_formed world' = true.
Proof.
  intros Hin Hwf.
  assert (Hrun : exists world', sys host world dt = Some world').
  { pose proof Hwf as Hwf'. unfold well_formed in Hwf'.
    apply andb_true_iff in Hwf'. destruct Hwf' as [Hb Hp].
    each_stage Hin; try (eexists; reflexivity).
    - destruct (movementSystem_spec host world dt (players_boxed_placed _ Hp))
        as (es' & Hrun & _).
      eexists. exact Hrun.
    - unfold spawnerSystem. destruct (num_lt _ _); eexists; reflexivity.
    - apply collisionSystem_total, Hwf.
    - apply cleanupSystem_total, Hb. }
  destruct Hrun as [world' Hrun]. exists world'. split; [exact Hrun|].
  destruct (entities_step_invariants _ _ (stage_entities _ _ _ _ _ Hin Hrun))
    as (H1 & H2 & _).
  unfold well_formed in *. apply andb_true_iff in Hwf. destruct Hwf as [Hb Hp].
  rewrite (H1 Hb), (H2 Hp). reflexivity.
Qed.

(** ** The pipeline *)

Section Pipeline.
Variable host : Host.t.
Variable dt : Q.

Lemma fold_raised (systems : list System) :
  fold_left (fun w sys => w0 <- w ;; sys host w0 dt) systems None = None.
Proof. induction systems as [|sys rest IH]; [reflexivity | exact IH]. Qed.

Lemma pipeSystems_cons (sys : System) (rest : list System) (world : World.t) :
  pipeSystems (sys :: rest) host world dt =
    (w <- sys host world dt ;; pipeSystems rest host w dt).
Proof.
  unfold pipeSystems. cbn [fold_left bind].
  destruct (sys host world dt); [reflexivity | apply fold_raised].
Qed.

(** A reflexive and transitive relation that holds across every stage holds
    across the pipeline. *)
Lemma pipeSystems_related (R : World.t -> World.t -> Prop) (systems : list System) :
  (forall w, R w w) ->
  (forall w1 w2 w3, R w1 w2 -> R w2 w3 -> R w1 w3) ->
  (forall sys, In sys systems ->
               forall w w', sys host w dt = Some w' -> R w w') ->
  forall world world',
    pipeSystems systems host world dt = Some world' -> R world world'.
Proof.
  intros Hrefl Htrans.
  induction systems as [|sys rest IH]; intros Hstage world world' Hrun.
  - injection Hrun as <-. apply Hrefl.
  - rewrite pipeSystems_cons in Hrun.
    destruct (sys host world dt) as [w|] eqn:Hw; [|discriminate].
    cbn [bind] in Hrun.
    apply (Htrans _ w).
    + exact (Hstage sys (or_introl eq_refl) _ _ Hw).
    + apply IH; [|exact Hrun]. intros sys' Hin. apply Hstage. right. exact Hin.
Qed.

(** An invariant under which every stage returns lets the pipeline return. *)
Lemma pipeSystems_total (P : World.t -> Prop) (systems : list System) :
  (forall sys, In sys systems ->
               forall w, P w -> exists w', sys host w dt = Some w' /\ P w') ->
  forall world, P world ->
    exists world', pipeSystems systems host world dt = Some world' /\ P world'.
Proof.
  induction systems as [|sys rest IH]; intros Hstage world HP.
  - exists world. split; [reflexivity | exact HP].
  - destruct (Hstage sys (or_introl eq_refl) world HP) as (w & Hw & HPw).
    rewrite pipeSystems_cons, Hw. cbn [bind].
    apply IH; [|exact HPw]. intros sys' Hin. apply Hstage. right. exact Hin.
Qed.

Lemma update_total (world : World.t) :
  well_formed world = true ->
  exists world', update host world dt = Some world' /\ well_formed world' = true.
Proof.
  apply (pipeSystems_total (fun w => well_formed w = true)).
  intros sys Hin w Hw. exact (stage_total sys host w dt Hin Hw).
Qed.

Lemma update_progress (world world' : World.t) :
  0 <= dt -> update host world dt = Some world' -> progress world world'.
Proof.
  intro Hdt.
  apply (pipeSystems_related progress);
    [exact progress_refl | exact progress_trans |].
  intros sys Hin w w'. exact (stage_progress sys host w w' dt Hin Hdt).
Qed.

Lemma stage_one_player (sys : System) (world world' : World.t) :
  In sys stages ->
  sys host world dt = Some world' ->
  one_player world -> one_player world'.
Proof.
  intros Hin Hrun [Hcount Huntagged].
  destruct (entities_step_invariants _ _ (stage_entities _ _ _ _ _ Hin Hrun))
    as (_ & _ & H).
  destruct (H Huntagged) as [H1 H2]. split; congruence.
Qed.

Lemma update_one_player (world world' : World.t) :
  update host world dt = Some world' -> one_player world -> one_player world'.
Proof.
  apply (pipeSystems_related (fun w w' => one_player w -> one_player w')).
  - auto.
  - auto.
  - intros sys Hin w w'. exact (stage_one_player sys w w' Hin).
Qed.
End Pipeline.

Lemma run_total (frames : list Frame) (world : World.t) :
  well_formed world = true ->
  exists world', run frames world = Some world' /\ well_formed world' = true.
Proof.
  revert world. induction frames as [|[host dt] rest IH]; intros world Hwf.
  - exists world. split; [reflexivity | exact Hwf].
  - destruct (update_total host dt world Hwf) as (w & Hw & Hwfw).
    cbn [run]. rewrite Hw. cbn [bind]. exact (IH w Hwfw).
Qed.

Lemma run_progress (frames : list Frame) (world world' : World.t) :
  Forall (fun fr => 0 <= snd fr) frames ->
  run frames world = Some world' ->
  progress world world'.
Proof.
  intro Hdt. revert world.
  induction Hdt as [|[host dt] rest Hfr _ IH]; intros world Hrun; cbn [run] in Hrun.
  - injection Hrun as <-. apply progress_refl.
  - destruct (update host world dt) as [w|] eqn:Hw; [|discriminate].
    cbn [bind] in Hrun.
    exact (progress_trans _ _ _ (update_progress host dt world w Hfr Hw)
                          (IH w Hrun)).
Qed.

(** C6 (monotonic time and score).  Over any sequence of pipeline passes
    whose [dt] are all non-negative: the sequence runs to the end on a
    well-formed world; whenever it does, [time] and [score] at the end are
    at least what they were at the start, and if the game was over at the
    start the score is the same at the end and the game is still over.  The
    collision stage returns its input on a finished game, and no other stage
    ever changes [score]. *)
Theorem time_score_monotone (frames : list Frame) (world : World.t) :
  Forall (fun fr => 0 <= snd fr) frames ->
  (well_formed world = true -> exists world', run frames world = Some world') /\
  (forall world',
      run frames world = Some world' ->
      World.time world <= World.time world' /\
      World.score world <= World.score world' /\
      (Game.over (World.game world) = true ->
       World.score world' = World.score world /\
       Game.over (World.game world') = true)) /\
  (forall host dt,
      Game.over (World.game world) = true ->
      collisionSystem host world dt = Some world) /\
  (forall sys host dt world',
      In sys [timeSystem; inputSystem; movementSystem; spawnerSystem;
              fallingSystem; difficultySystem; cleanupSystem] ->
      sys host world dt = Some world' ->
      World.score world' = World.score world).
Proof.
  intro Hdt. split; [|split; [|split]].
  - intro Hwf. destruct (run_total frames world Hwf) as (world' & Hrun & _).
    exists world'. exact Hrun.
  - intros world' Hrun. exact (run_progress frames world world' Hdt Hrun).
  - intros host dt Hover. unfold collisionSystem. rewrite Hover. reflexivity.
  - intros sys host dt world' Hin Hrun.
    exact (proj1 (stage_score sys host world world' dt Hin Hrun)).
Qed.

Lemma time_score_monotone_witness :
  Forall (fun fr : Frame => 0 <= snd fr) Sample.frames /\
  exists world',
    run Sample.frames Sample.start = Some world' /\
    World.time Sample.start <= World.time world' /\
    World.score Sample.start <= World.score world'.
Proof.
  assert (Hdt : Forall (fun fr : Frame => 0 <= snd fr) Sample.frames).
  { repeat constructor; cbn; discriminate. }
  split; [exact Hdt|].
  destruct (time_score_monotone Sample.frames Sample.start Hdt)
    as (Htotal & Hmono & _).
  destruct (Htotal eq_refl) as [world' Hrun].
  exists world'. split; [exact Hrun|].
  destruct (Hmono world' Hrun) as (Ht & Hs & _). split; [exact Ht | exact Hs].
Defined.

(** C7 (the player stays, and stays alone).  Take a world with exactly one
    entity of id ["player"], that entity having no tag (as the data model
    has it).  Every stage of the pipeline, when it returns, returns a world
    with exactly one entity of id ["player"], again untagged; so does a whole
    pipeline pass; and each stage does return when the world is well-formed.
    The collision stage and the cleanup stage keep every untagged entity of
    their input. *)
Theorem player_preserved (host : Host.t) (world : World.t) (dt : Q) :
  count_players (World.entities world) = 1%nat ->
  players_untagged (World.entities world) = true ->
  (forall sys world',
      In sys stages ->
      sys host world dt = Some world' ->
      count_players (World.entities world') = 1%nat /\
      players_untagged (World.entities world') = true) /\
  (forall world',
      update host world dt = Some world' ->
      count_players (World.entities world') = 1%nat /\
      players_untagged (World.entities world') = true) /\
  (forall sys,
      In sys stages ->
      well_formed world = true ->
      exists world', sys host world dt = Some world') /\
  (forall sys world' e,
      In sys [collisionSystem; cleanupSystem] ->
      sys host world dt = Some world' ->
      In e (World.entities world) ->
      Components.tag (Entity.components e) = None ->
      In e (World.entities world')).
Proof.
  intros Hcount Huntagged.
  assert (Hone : one_player world) by (split; assumption).
  split; [|split; [|split]].
  - intros sys world' Hin Hrun.
    exact (stage_one_player host dt sys world world' Hin Hrun Hone).
  - intros world' Hrun. exact (update_one_player host dt world world' Hrun Hone).
  - intros sys Hin Hwf.
    destruct (stage_total sys host world dt Hin Hwf) as (world' & Hrun & _).
    exists world'. exact Hrun.
  - intros sys world' e Hin Hrun He Htag.
    assert (Hu : tagged e = false) by (unfold tagged; rewrite Htag; reflexivity).
    cbn [In] in Hin. destruct Hin as [<- | [<- | []]].
    + apply collisionSystem_sound in Hrun.
      destruct Hrun as [-> | (_ & player & playerRect & _ & _ & ->)];
        [exact He|].
      cbn [World.entities]. apply filter_In. split; [exact He|].
      apply untagged_no_good_hit, Hu.
    + apply cleanupSystem_sound in Hrun. subst world'.
      cbn [World.with_entities World.entities]. apply filter_In.
      split; [exact He|]. apply untagged_kept, Hu.
Qed.

Lemma player_preserved_witness :
  exists world',
    update Sample.host Sample.crowded (1 # 60) = Some world' /\
    count_players (World.entities world') = 1%nat /\
    players_untagged (World.entities world') = true.
Proof.
  destruct (player_preserved Sample.host Sample.crowded (1 # 60) eq_refl eq_refl)
    as (_ & Hupdate & _ & _).
  destruct (update_total Sample.host (1 # 60) Sample.crowded eq_refl)
    as (world' & Hrun & _).
  exists world'. split; [exact Hrun | exact (Hupdate world' Hrun)].
Defined.

(** ** Concrete runs *)

(** The first pass of the game at [dt = 1]: the player, pushed right from the
    middle of an 800 wide canvas, stops at 650, and a first block has spawned
    and fallen for a second. *)
Example first_pass :
  option_map World.entities (update Sample.host Sample.start 1) =
    Some [with_position (Position.mk 650 430) (player Sample.canvas);
          with_position (Position.mk (730 # 2) 90)
            (createBlock "good_1000" (730 # 2) "good")].
Proof. reflexivity. Qed.

(** The end-to-end scenario of the spec: the game is over after the pass and
    the bad block is still there, a little lower. *)
Example ambush_pass :
  exists world',
    update Sample.host Sample.ambush (16 # 1000) = Some world' /\
    Game.over (World.game world') = true /\
    World.score world' = 0 /\
    map Entity.id (World.entities world') = ["player"; "bad_0"].
Proof. eexists. repeat split. Qed.

(** ** The keyboard state *)

(** X1.  [setInput] reacts to ["ArrowLeft"] and ["ArrowRight"] only: any
    other key returns the state it was given; ["ArrowLeft"] sets [left] and
    keeps [right], ["ArrowRight"] sets [right] and keeps [left]; a second
    event on a key overrides the first; and events on the two keys commute. *)
Theorem setInput_laws (state : Input.t) :
  (forall key isDown,
      key <> "ArrowLeft" -> key <> "ArrowRight" ->
      setInput state key isDown = state) /\
  (forall isDown,
      setInput state "ArrowLeft" isDown = Input.mk isDown (Input.right state)) /\
  (forall isDown,
      setInput state "ArrowRight" isDown = Input.mk (Input.left state) isDown) /\
  (forall key first second,
      setInput (setInput state key first) key second = setInput state key second) /\
  (forall l r,
      setInput (setInput state "ArrowLeft" l) "ArrowRight" r =
      setInput (setInput state "ArrowRight" r) "ArrowLeft" l).
Proof.
  split; [|split; [|split; [|split]]].
  - intros key isDown Hl Hr. unfold setInput.
    apply String.eqb_neq in Hl. apply String.eqb_neq in Hr.
    rewrite Hl, Hr. reflexivity.
  - reflexivity.
  - reflexivity.
  - intros key first second. unfold setInput.
    destruct (key =? "ArrowLeft")%string; [reflexivity|].
    destruct (key =? "ArrowRight")%string; reflexivity.
  - reflexivity.
Qed.

Lemma listen_snoc (events : list KeyEvent) (ev : KeyEvent) (state : Input.t) :
  listen (events ++ [ev]) state = setInput (listen events state) (fst ev) (snd ev).
Proof. unfold listen. rewrite fold_left_app. reflexivity. Qed.

Lemma listen_cons (ev : KeyEvent) (events : list KeyEvent) (state : Input.t) :
  listen (ev :: events) state = listen events (setInput state (fst ev) (snd ev)).
Proof. reflexivity. Qed.

(** X2.  After any sequence of key events, [left] is what the most recent
    ["ArrowLeft"] event said (pressed or released), or what it was before if
    there was none; likewise [right] and ["ArrowRight"].  Events on other
    keys never matter. *)
Theorem listen_last_event (events : list KeyEvent) (state : Input.t) :
  Input.left (listen events state) =
    match lastEvent "ArrowLeft" events with
    | Some isDown => isDown
    | None => Input.left state
    end /\
  Input.right (listen events state) =
    match lastEvent "ArrowRight" events with
    | Some isDown => isDown
    | None => Input.right state
    end.
Proof.
  revert state. induction events as [|[key isDown] rest IH]; intro state.
  - split; reflexivity.
  - rewrite listen_cons. cbn [lastEvent fst snd].
    destruct (IH (setInput state key isDown)) as [IHl IHr].
    rewrite IHl, IHr. clear IHl IHr IH. unfold setInput.
    split.
    + destruct (lastEvent "ArrowLeft" rest); [reflexivity|].
      destruct (key =? "ArrowLeft")%string eqn:El; [reflexivity|].
      destruct (key =? "ArrowRight")%string; reflexivity.
    + destruct (lastEvent "ArrowRight" rest); [reflexivity|].
      destruct (key =? "ArrowLeft")%string eqn:El.
      * apply String.eqb_eq in El. subst key. reflexivity.
      * destruct (key =? "ArrowRight")%string; reflexivity.
Qed.

(** ** Collision geometry *)

Lemma rectsOverlap_true (a b : Rect.t) :
  rectsOverlap a b = true <->
  Rect.x a < Rect.x b + Rect.w b /\ Rect.x b < Rect.x a + Rect.w a /\
  Rect.y a < Rect.y b + Rect.h b /\ Rect.y b < Rect.y a + Rect.h a.
Proof.
  unfold rectsOverlap. rewrite !andb_true_iff, !num_lt_true. tauto.
Qed.

(** X3.  The overlap test does not depend on the order of its arguments. *)
Theorem rectsOverlap_sym (a b : Rect.t) : rectsOverlap a b = rectsOverlap b a.
Proof.
  unfold rectsOverlap.
  destruct (num_lt (Rect.x a) (Rect.x b + Rect.w b)),
           (num_lt (Rect.x b) (Rect.x a + Rect.w a)),
           (num_lt (Rect.y a) (Rect.y b + Rect.h b)),
           (num_lt (Rect.y b) (Rect.y a + Rect.h a)); reflexivity.
Qed.

(** X4.  The overlap test is strict.  A rectangle overlaps itself exactly
    when its width and its height are positive, and two rectangles of which
    one begins where the other ends, horizontally or vertically, do not
    overlap. *)
Theorem rectsOverlap_strict (a b : Rect.t) :
  (rectsOverlap a a = true <-> 0 < Rect.w a /\ 0 < Rect.h a) /\
  (Rect.x a + Rect.w a == Rect.x b -> rectsOverlap a b = false) /\
  (Rect.y a + Rect.h a == Rect.y b -> rectsOverlap a b = false).
Proof.
  split; [|split].
  - rewrite rectsOverlap_true. split.
    + intros (H1 & _ & H2 & _). split; lra.
    + intros [H1 H2]. repeat split; lra.
  - intro H. destruct (rectsOverlap a b) eqn:E; [|reflexivity].
    apply rectsOverlap_true in E. lra.
  - intro H. destruct (rectsOverlap a b) eqn:E; [|reflexivity].
    apply rectsOverlap_true in E. lra.
Qed.

Lemma hitbox_inside (p : Position.t) (s : Size.t) (m : Margins.t) :
  0 <= Size.w s -> 0 <= Size.h s -> margins_ok m ->
  inside (hitboxWithMargins p s m) (drawnRect p s).
Proof.
  intros Hw Hh (Hl & Hr & Ht & Hb).
  pose proof (Qmult_le_0_compat _ _ Hw Hl) as H1.
  pose proof (Qmult_le_0_compat _ _ Hw Hr) as H2.
  pose proof (Qmult_le_0_compat _ _ Hh Ht) as H3.
  pose proof (Qmult_le_0_compat _ _ Hh Hb) as H4.
  unfold inside, hitboxWithMargins, drawnRect.
  cbn [Rect.x Rect.y Rect.w Rect.h].
  repeat split; lra.
Qed.

Lemma overlap_inside (a a' b b' : Rect.t) :
  inside a a' -> inside b b' ->
  rectsOverlap a b = true -> rectsOverlap a' b' = true.
Proof.
  unfold inside. rewrite !rectsOverlap_true.
  intros (A1 & A2 & A3 & A4) (B1 & B2 & B3 & B4) (H1 & H2 & H3 & H4).
  repeat split; lra.
Qed.

Lemma program_margins_ok :
  margins_ok PLAYER_MARGINS /\ margins_ok GOOD_MARGINS /\ margins_ok BAD_MARGINS.
Proof. unfold margins_ok. cbn. repeat split; discriminate. Qed.

(** X5.  A margin-adjusted hit-rectangle lies within the rectangle the sprite
    is drawn in, whenever the size and the margins are not negative. *)
Theorem hitbox_within_sprite (p : Position.t) (s : Size.t) (m : Margins.t) :
  0 <= Size.w s -> 0 <= Size.h s ->
  0 <= Margins.left m -> 0 <= Margins.right m ->
  0 <= Margins.top m -> 0 <= Margins.bottom m ->
  let r := hitboxWithMargins p s m in
  Position.x p <= Rect.x r /\
  Rect.x r + Rect.w r <= Position.x p + Size.w s /\
  Position.y p <= Rect.y r /\
  Rect.y r + Rect.h r <= Position.y p + Size.h s.
Proof.
  intros Hw Hh Hl Hr Ht Hb.
  exact (hitbox_inside p s m Hw Hh (conj Hl (conj Hr (conj Ht Hb)))).
Qed.

Lemma hitbox_within_sprite_witness :
  let r := hitboxWithMargins (Position.mk 100 430) (Size.mk 150 150) PLAYER_MARGINS in
  100 <= Rect.x r /\ Rect.x r + Rect.w r <= 100 + 150 /\
  430 <= Rect.y r /\ Rect.y r + Rect.h r <= 430 + 150.
Proof.
  apply (hitbox_within_sprite (Position.mk 100 430) (Size.mk 150 150) PLAYER_MARGINS);
    cbn; discriminate.
Defined.

(** X6.  With the margins of the program, the collision stage's tests can
    only succeed when the sprites themselves overlap: if the player's
    hit-rectangle overlaps the hit-rectangle of a block, taken with the good
    or with the bad margins, then the rectangles the two sprites are drawn in
    overlap (sizes not negative). *)
Theorem hit_needs_sprite_overlap (pp bp : Position.t) (ps bs : Size.t)
    (m : Margins.t) :
  0 <= Size.w ps -> 0 <= Size.h ps -> 0 <= Size.w bs -> 0 <= Size.h bs ->
  m = GOOD_MARGINS \/ m = BAD_MARGINS ->
  rectsOverlap (hitboxWithMargins pp ps PLAYER_MARGINS)
               (hitboxWithMargins bp bs m) = true ->
  rectsOverlap (drawnRect pp ps) (drawnRect bp bs) = true.
Proof.
  intros Hpw Hph Hbw Hbh Hm.
  destruct program_margins_ok as (Mp & Mg & Mb).
  apply overlap_inside.
  - apply hitbox_inside; assumption.
  - apply hitbox_inside; try assumption. destruct Hm as [-> | ->]; assumption.
Qed.

Lemma hit_needs_sprite_overlap_witness :
  rectsOverlap (drawnRect (Position.mk 100 430) (Size.mk 150 150))
               (drawnRect (Position.mk 150 450) (Size.mk 70 70)) = true.
Proof.
  apply (hit_needs_sprite_overlap _ _ _ _ BAD_MARGINS);
    try (cbn; discriminate); [right; reflexivity | reflexivity].
Defined.

(** ** Falling *)

(** X7.  Nothing falls upwards.  For [dt >= 0] the falling stage returns a
    world that differs from its input in the entities only; each entity
    keeps its id, size, falling and tag; an entity without [falling] or
    without [position] is unchanged; an entity with both gets the position
    with the same [x] and [y + speed * dt], which is not above its old [y]
    when [speed >= 0]. *)
Theorem falling_never_rises (host : Host.t) (world : World.t) (dt : Q) :
  0 <= dt ->
  exists world',
    fallingSystem host world dt = Some world' /\
    World.time world' = World.time world /\
    World.spawn world' = World.spawn world /\
    World.score world' = World.score world /\
    World.game world' = World.game world /\
    World.difficulty world' = World.difficulty world /\
    World.input world' = World.input world /\
    Forall2
      (fun e e' =>
         Entity.id e' = Entity.id e /\
         Components.size (Entity.components e')
           = Components.size (Entity.components e) /\
         Components.falling (Entity.components e')
           = Components.falling (Entity.components e) /\
         Components.tag (Entity.components e')
           = Components.tag (Entity.components e) /\
         match Components.falling (Entity.components e),
               Components.position (Entity.components e) with
         | Some f, Some p =>
             Components.position (Entity.components e')
               = Some (Position.mk (Position.x p)
                                   (Position.y p + Falling.speed f * dt)) /\
             (0 <= Falling.speed f ->
              Position.y p <= Position.y p + Falling.speed f * dt)
         | _, _ => e' = e
         end)
      (World.entities world) (World.entities world').
Proof.
  intro Hdt. eexists. split; [reflexivity|].
  cbn [World.with_entities World.entities World.time World.spawn World.score
       World.game World.difficulty World.input].
  repeat (split; [reflexivity|]).
  apply Forall2_map_r. intro e. unfold fall.
  destruct (Components.falling (Entity.components e)) as [f|] eqn:Hf.
  - destruct (Components.position (Entity.components e)) as [p|] eqn:Hp.
    + cbn [with_position Entity.id Entity.components Components.position
           Components.size Components.falling Components.tag].
      rewrite Hf. repeat (split; [reflexivity|]).
      intro Hs. pose proof (Qmult_le_0_compat _ _ Hs Hdt). lra.
    + rewrite Hf. repeat split; try assumption.
  - repeat split; try assumption.
Qed.

Lemma falling_never_rises_witness :
  exists world' e',
    fallingSystem Sample.host (Sample.within [Sample.hero; Sample.bad_on]) (1 # 10)
      = Some world' /\
    World.entities world' = [Sample.hero; e'] /\
    Components.position (Entity.components e')
      = Some (Position.mk 150 (450 + 160 * (1 # 10))).
Proof.
  destruct (falling_never_rises Sample.host
              (Sample.within [Sample.hero; Sample.bad_on]) (1 # 10))
    as (world' & Hrun & _); [cbn; discriminate|].
  injection Hrun as <-.
  eexists. eexists. split; [reflexivity|]. split; reflexivity.
Defined.

(** ** The pipeline composer *)

Lemma pipeSystems_app_eq (l1 l2 : list System) (host : Host.t)
    (world : World.t) (dt : Q) :
  pipeSystems (l1 ++ l2) host world dt =
    (w <- pipeSystems l1 host world dt ;; pipeSystems l2 host w dt).
Proof.
  revert world. induction l1 as [|sys l1 IH]; intro world.
  - reflexivity.
  - cbn [app]. rewrite !pipeSystems_cons.
    destruct (sys host world dt) as [w|]; cbn [bind]; [apply IH | reflexivity].
Qed.

(** X8.  [pipeSystems] composes: no system gives the identity, the pipe of
    two lists run one after the other is the pipe of their concatenation,
    and a system that raises ends the pass with that exception whatever
    comes after it. *)
Theorem pipeSystems_compose (host : Host.t) (world : World.t) (dt : Q) :
  pipeSystems [] host world dt = Some world /\
  (forall l1 l2,
      pipeSystems (l1 ++ l2) host world dt =
        (w <- pipeSystems l1 host world dt ;; pipeSystems l2 host w dt)) /\
  (forall l1 sys l2 w,
      pipeSystems l1 host world dt = Some w ->
      sys host w dt = None ->
      pipeSystems (l1 ++ sys :: l2) host world dt = None).
Proof.
  split; [reflexivity|]. split.
  - intros l1 l2. apply pipeSystems_app_eq.
  - intros l1 sys l2 w H1 Hsys.
    rewrite pipeSystems_app_eq, H1. cbn [bind].
    rewrite pipeSystems_cons, Hsys. reflexivity.
Qed.

(** ** The clock *)

Lemma collisionSystem_keeps (host : Host.t) (world world' : World.t) (dt : Q) :
  collisionSystem host world dt = Some world' ->
  World.time world' = World.time world /\
  World.spawn world' = World.spawn world /\
  World.difficulty world' = World.difficulty world /\
  World.input world' = World.input world.
Proof.
  intro H. apply collisionSystem_sound in H.
  destruct H as [-> | (_ & player & playerRect & _ & _ & ->)]; cbn; auto.
Qed.

Lemma later_stage_time (sys : System) (host : Host.t) (world world' : World.t)
    (dt : Q) :
  In sys [inputSystem; movementSystem; spawnerSystem; fallingSystem;
          difficultySystem; collisionSystem; cleanupSystem] ->
  sys host world dt = Some world' ->
  World.time world' = World.time world.
Proof.
  intros Hin Hrun. cbn [In] in Hin.
  repeat (destruct Hin as [Hin | Hin]; [subst|]); [..|destruct Hin].
  - injection Hrun as <-. reflexivity.
  - apply movementSystem_sound in Hrun. destruct Hrun as (es' & -> & _).
    reflexivity.
  - apply spawnerSystem_sound in Hrun.
    destruct Hrun as [-> | (id & x & kind & _ & ->)]; reflexivity.
  - injection Hrun as <-. reflexivity.
  - injection Hrun as <-. reflexivity.
  - apply collisionSystem_keeps in Hrun. tauto.
  - apply cleanupSystem_sound in Hrun. subst world'. reflexivity.
Qed.

Lemma update_time (host : Host.t) (world world' : World.t) (dt : Q) :
  update host world dt = Some world' ->
  World.time world' = World.time world + dt.
Proof.
  unfold update, stages. rewrite pipeSystems_cons. cbn [timeSystem bind].
  intro Hrun.
  apply (pipeSystems_related host dt
           (fun w w' => World.time w' = World.time w)) in Hrun.
  - exact Hrun.
  - reflexivity.
  - intros w1 w2 w3 H1 H2. congruence.
  - intros sys Hin w w'. exact (later_stage_time sys host w w' dt Hin).
Qed.

(** X9.  The clock is the time stage's alone.  After a sequence of pipeline
    passes [world.time] is the time it started from with the [dt] of each
    pass added in turn, [((time + dt1) + dt2) + ...]: the time stage adds
    [dt] once per pass, and no other stage changes [time]. *)
Theorem run_time (frames : list Frame) (world world' : World.t) :
  run frames world = Some world' ->
  World.time world' = clock frames (World.time world) /\
  (forall sys host dt w w',
      In sys [inputSystem; movementSystem; spawnerSystem; fallingSystem;
              difficultySystem; collisionSystem; cleanupSystem] ->
      sys host w dt = Some w' ->
      World.time w' = World.time w).
Proof.
  intro Hrun. split.
  - revert world Hrun.
    induction frames as [|[host dt] rest IH]; intros world Hrun; cbn [run] in Hrun.
    + injection Hrun as <-. reflexivity.
    + destruct (update host world dt) as [w|] eqn:Hw; [|discriminate].
      cbn [bind] in Hrun. rewrite (IH w Hrun), (update_time _ _ _ _ Hw).
      reflexivity.
  - intros sys host dt w w'. apply later_stage_time.
Qed.

Lemma run_time_witness :
  exists world',
    run Sample.frames Sample.start = Some world' /\
    World.time world' = (0 + 1) + (1 # 10).
Proof.
  destruct (run_total Sample.frames Sample.start eq_refl) as (world' & Hrun & _).
  exists world'. split; [exact Hrun|].
  exact (proj1 (run_time Sample.frames Sample.start world' Hrun)).
Defined.

(** ** Difficulty *)

Lemma Math_max_upper (a b : Q) : b <= Math_max a b.
Proof.
  unfold Math_max. destruct (num_lt a b) eqn:E; [apply Qle_refl|].
  apply Qnot_lt_le. intro L. apply num_lt_true in L. congruence.
Qed.

Lemma cleanupSystem_keeps (host : Host.t) (world world' : World.t) (dt : Q) :
  cleanupSystem host world dt = Some world' ->
  World.time world' = World.time world /\
  World.spawn world' = World.spawn world /\
  World.difficulty world' = World.difficulty world /\
  World.input world' = World.input world.
Proof.
  intro H. apply cleanupSystem_sound in H. subst world'. cbn. auto.
Qed.

(** The settings no stage writes. *)
Lemma stage_settings (sys : System) (host : Host.t) (world world' : World.t)
    (dt : Q) :
  In sys stages ->
  sys host world dt = Some world' ->
  World.difficulty world' = World.difficulty world /\
  Spawn.baseInterval (World.spawn world') = Spawn.baseInterval (World.spawn world) /\
  Spawn.minInterval (World.spawn world') = Spawn.minInterval (World.spawn world).
Proof.
  intros Hin Hrun. each_stage Hin.
  - injection Hrun as <-. cbn. auto.
  - injection Hrun as <-. cbn. auto.
  - apply movementSystem_sound in Hrun. destruct Hrun as (es' & -> & _).
    cbn. auto.
  - apply spawnerSystem_sound in Hrun.
    destruct Hrun as [-> | (id & x & kind & _ & ->)]; cbn; auto.
  - injection Hrun as <-. cbn. auto.
  - injection Hrun as <-. cbn. auto.
  - apply collisionSystem_keeps in Hrun. destruct Hrun as (_ & -> & -> & _). auto.
  - apply cleanupSystem_keeps in Hrun. destruct Hrun as (_ & -> & -> & _). auto.
Qed.

(** X10.  After every pipeline pass [spawn.interval] is at least
    [spawn.minInterval], whatever it was before; and the pass leaves
    [difficulty], [spawn.baseInterval] and [spawn.minInterval] as they
    were. *)
Theorem update_interval_floor (host : Host.t) (world world' : World.t) (dt : Q) :
  update host world dt = Some world' ->
  Spawn.minInterval (World.spawn world') <= Spawn.interval (World.spawn world') /\
  World.difficulty world' = World.difficulty world /\
  Spawn.baseInterval (World.spawn world') = Spawn.baseInterval (World.spawn world) /\
  Spawn.minInterval (World.spawn world') = Spawn.minInterval (World.spawn world).
Proof.
  intro Hrun. split.
  - unfold update, stages in Hrun.
    change [timeSystem; inputSystem; movementSystem; spawnerSystem; fallingSystem;
            difficultySystem; collisionSystem; cleanupSystem]
      with ([timeSystem; inputSystem; movementSystem; spawnerSystem; fallingSystem]
              ++ [difficultySystem; collisionSystem; cleanupSystem])%list in Hrun.
    rewrite pipeSystems_app_eq in Hrun.
    destruct (pipeSystems _ host world dt) as [w1|]; [|discriminate].
    cbn [bind] in Hrun. rewrite pipeSystems_cons in Hrun.
    cbn [difficultySystem bind] in Hrun. rewrite pipeSystems_cons in Hrun.
    destruct (collisionSystem host _ dt) as [w2|] eqn:Hw2; [|discriminate].
    cbn [bind] in Hrun. rewrite pipeSystems_cons in Hrun.
    destruct (cleanupSystem host w2 dt) as [w3|] eqn:Hw3; [|discriminate].
    cbn [bind] in Hrun. injection Hrun as <-.
    apply collisionSystem_keeps in Hw2. apply cleanupSystem_keeps in Hw3.
    destruct Hw2 as (_ & Hs2 & _). destruct Hw3 as (_ & Hs3 & _).
    rewrite Hs3, Hs2. cbn [World.with_spawn World.spawn Spawn.interval
                            Spawn.minInterval].
    apply Math_max_upper.
  - revert Hrun.
    apply (pipeSystems_related host dt
             (fun w w' =>
                World.difficulty w' = World.difficulty w /\
                Spawn.baseInterval (World.spawn w') = Spawn.baseInterval (World.spawn w) /\
                Spawn.minInterval (World.spawn w') = Spawn.minInterval (World.spawn w))).
    + auto.
    + intros w1 w2 w3 (A1 & A2 & A3) (B1 & B2 & B3).
      rewrite B1, B2, B3. auto.
    + intros sys Hin w w'. exact (stage_settings sys host w w' dt Hin).
Qed.

Lemma update_interval_floor_witness :
  exists world',
    update Sample.host Sample.start 1 = Some world' /\
    Spawn.minInterval (World.spawn world') <= Spawn.interval (World.spawn world').
Proof.
  destruct (update_total Sample.host 1 Sample.start eq_refl) as (world' & Hrun & _).
  exists world'. split; [exact Hrun|].
  exact (proj1 (update_interval_floor Sample.host Sample.start world' 1 Hrun)).
Defined.

Lemma floor_level (t step : Q) (n : Z) :
  0 < step ->
  inject_Z n * step <= t ->
  t < (inject_Z n + 1) * step ->
  Qfloor (t / step) = n.
Proof.
  intros Hstep Hlo Hhi.
  assert (H1 : inject_Z n <= t / step) by (apply Qle_shift_div_l; assumption).
  assert (H2 : t / step < inject_Z n + 1) by (apply Qlt_shift_div_r; assumption).
  apply Z.le_antisymm.
  - apply Z.lt_succ_r. rewrite Zlt_Qlt.
    apply (Qle_lt_trans _ (t / step)); [apply Qfloor_le|].
    unfold Z.succ. rewrite inject_Z_plus. exact H2.
  - rewrite <- (Qfloor_Z n). apply Qfloor_resp_le. exact H1.
Qed.

(** X11.  Difficulty goes up in steps: while
    [n * step <= time < (n + 1) * step] (with [step > 0]) the difficulty
    stage gives every falling entity the speed [baseSpeed * factor ^ n] and
    sets the spawn interval to
    [max (baseInterval * (1 / factor) ^ n) minInterval]; in particular during
    the first [step] seconds every speed equals its [baseSpeed]. *)
Theorem difficulty_level (host : Host.t) (world : World.t) (dt : Q) (n : Z) :
  let step := Difficulty.step (World.difficulty world) in
  let factor := Difficulty.factor (World.difficulty world) in
  0 < step ->
  inject_Z n * step <= World.time world ->
  World.time world < (inject_Z n + 1) * step ->
  exists world1,
    difficultySystem host world dt = Some world1 /\
    Spawn.interval (World.spawn world1) =
      Math_max (Spawn.baseInterval (World.spawn world) * (1 / factor) ^ n)
               (Spawn.minInterval (World.spawn world)) /\
    Forall2
      (fun e e1 =>
         match Components.falling (Entity.components e) with
         | None => e1 = e
         | Some f =>
             exists f1,
               Components.falling (Entity.components e1) = Some f1 /\
               Falling.baseSpeed f1 = Falling.baseSpeed f /\
               Falling.speed f1 = Falling.baseSpeed f * factor ^ n /\
               (n = 0%Z -> Falling.speed f1 == Falling.baseSpeed f)
         end)
      (World.entities world) (World.entities world1).
Proof.
  intros step factor Hstep Hlo Hhi.
  assert (Hlevel : forall b, Math_pow b (Math_floor (World.time world / step)) = b ^ n).
  { intro b. unfold Math_pow, Math_floor.
    rewrite (floor_level _ _ n Hstep Hlo Hhi), Qfloor_Z. reflexivity. }
  eexists. split; [reflexivity|].
  cbn [World.with_spawn World.with_entities World.entities World.spawn
       Spawn.interval].
  fold step. fold factor. rewrite !Hlevel. split; [reflexivity|].
  induction (World.entities world) as [|e es IH]; cbn [map]; constructor.
  - unfold rescale.
    destruct (Components.falling (Entity.components e)) as [f|]; [|reflexivity].
    eexists. split; [reflexivity|]. split; [reflexivity|]. split; [reflexivity|].
    intros ->. cbn [Falling.speed Qpower]. ring.
  - exact IH.
Qed.

Lemma difficulty_level_witness :
  exists world1,
    difficultySystem Sample.host (World.with_time 45 Sample.crowded) 0 = Some world1 /\
    Spawn.interval (World.spawn world1) =
      Math_max ((8 # 10) * (1 / (125 # 100)) ^ 1) (25 # 100).
Proof.
  destruct (difficulty_level Sample.host (World.with_time 45 Sample.crowded) 0 1)
    as (world1 & Hrun & Hint & _); try reflexivity.
  - cbn. discriminate.
  - exists world1. split; [exact Hrun | exact Hint].
Defined.

Lemma level_monotone (t1 t2 step : Q) :
  0 < step -> t1 <= t2 -> (Qfloor (t1 / step) <= Qfloor (t2 / step))%Z.
Proof.
  intros Hstep Ht. apply Qfloor_resp_le. unfold Qdiv.
  apply Qmult_le_compat_r; [exact Ht|].
  apply Qlt_le_weak, Qinv_lt_0_compat, Hstep.
Qed.

Lemma Math_pow_floor (b x : Q) : Math_pow b (Math_floor x) = b ^ Qfloor x.
Proof. unfold Math_pow, Math_floor. rewrite Qfloor_Z. reflexivity. Qed.

Lemma inverse_power_antitone (factor : Q) (l1 l2 : Z) :
  1 <= factor -> (l1 <= l2)%Z -> (1 / factor) ^ l2 <= (1 / factor) ^ l1.
Proof.
  intros Hf Hl.
  assert (Hpos : forall l, 0 < factor ^ l)
    by (intro l; apply Qpower_0_lt; lra).
  assert (Hinv : forall l, (1 / factor) ^ l == / factor ^ l).
  { intro l. rewrite <- Qinv_power. apply Qpower_comp; [|reflexivity].
    unfold Qdiv. ring. }
  rewrite !Hinv. apply Qnot_lt_le. intro Hlt.
  apply (Qinv_lt_contravar _ _ (Hpos l2) (Hpos l1)) in Hlt.
  pose proof (Qpower_le_compat_l factor l1 l2 Hl Hf). lra.
Qed.

Lemma Math_max_monotone (a a' b : Q) : a <= a' -> Math_max a b <= Math_max a' b.
Proof.
  intro H. apply Math_max_least.
  - apply (Qle_trans _ a'); [exact H | apply Math_max_lower].
  - apply Math_max_upper.
Qed.

(** X12.  Difficulty never eases.  Take a world at two times [t1 <= t2], with
    [step > 0], [factor >= 1] and a base interval that is not negative.  The
    difficulty stage at [t2] gives every falling entity (of base speed not
    negative) at least the speed it gives at [t1], and a spawn interval at
    most the one it gives at [t1]. *)
Theorem difficulty_monotone (host : Host.t) (world : World.t) (dt t1 t2 : Q) :
  0 < Difficulty.step (World.difficulty world) ->
  1 <= Difficulty.factor (World.difficulty world) ->
  0 <= Spawn.baseInterval (World.spawn world) ->
  t1 <= t2 ->
  exists w1 w2,
    difficultySystem host (World.with_time t1 world) dt = Some w1 /\
    difficultySystem host (World.with_time t2 world) dt = Some w2 /\
    Spawn.interval (World.spawn w2) <= Spawn.interval (World.spawn w1) /\
    Forall2
      (fun e1 e2 =>
         match Components.falling (Entity.components e1),
               Components.falling (Entity.components e2) with
         | Some f1, Some f2 =>
             Falling.baseSpeed f1 = Falling.baseSpeed f2 /\
             (0 <= Falling.baseSpeed f1 -> Falling.speed f1 <= Falling.speed f2)
         | None, None => e1 = e2
         | _, _ => False
         end)
      (World.entities w1) (World.entities w2).
Proof.
  intros Hstep Hfactor Hbase Ht.
  pose proof (level_monotone t1 t2 _ Hstep Ht) as Hlevel.
  eexists. eexists. split; [reflexivity|]. split; [reflexivity|].
  cbn [World.with_time World.with_spawn World.with_entities World.entities
       World.spawn World.time World.difficulty Spawn.interval
       Spawn.baseInterval Spawn.minInterval].
  rewrite !Math_pow_floor. split.
  - apply Math_max_monotone.
    apply Qmult_le_compat_nonneg. split; [exact Hbase | apply Qle_refl].
    split; [|apply inverse_power_antitone; assumption].
    apply Qpower_0_le. apply Qlt_le_weak, Qlt_shift_div_l; lra.
  - induction (World.entities world) as [|e es IH]; cbn [map]; constructor.
    + unfold rescale.
      destruct (Components.falling (Entity.components e)) as [f|] eqn:Hf.
      * cbn. split; [reflexivity|]. intro Hb.
        apply Qmult_le_compat_nonneg. split; [exact Hb | apply Qle_refl].
        split; [|apply Qpower_le_compat_l; assumption].
        apply Qpower_0_le. lra.
      * rewrite Hf. reflexivity.
    + exact IH.
Qed.

Lemma difficulty_monotone_witness :
  exists w1 w2,
    difficultySystem Sample.host (World.with_time 10 Sample.crowded) 0 = Some w1 /\
    difficultySystem Sample.host (World.with_time 70 Sample.crowded) 0 = Some w2 /\
    Spawn.interval (World.spawn w2) <= Spawn.interval (World.spawn w1).
Proof.
  destruct (difficulty_monotone Sample.host Sample.crowded 0 10 70)
    as (w1 & w2 & H1 & H2 & Hint & _); try (cbn; discriminate); try reflexivity.
  exists w1, w2. split; [exact H1|]. split; [exact H2 | exact Hint].
Defined.

(** ** Spawning *)

(** X13.  A block spawns inside the canvas and with the kind that was drawn.
    When the gate is open, the draw for x is in [[0, 1)] and the canvas is at
    least a block wide, the appended block has [0 <= x] and
    [x + BLOCK_SIZE <= canvas.width]; it is tagged ["bad"] when the draw for
    the kind is below 0.7 and ["good"] otherwise; and its id is the kind, an
    underscore and the time in milliseconds, which is never ["player"]. *)
Theorem spawn_in_canvas (host : Host.t) (world : World.t) (dt : Q) :
  ~ World.time world - Spawn.last (World.spawn world)
    < Spawn.interval (World.spawn world) ->
  0 <= Host.random_x host -> Host.random_x host < 1 ->
  BLOCK_SIZE <= Canvas.width (Host.canvas host) ->
  exists world' block p t,
    spawnerSystem host world dt = Some world' /\
    World.entities world' = (World.entities world ++ [block])%list /\
    Components.position (Entity.components block) = Some p /\
    0 <= Position.x p /\
    Position.x p + BLOCK_SIZE <= Canvas.width (Host.canvas host) /\
    Components.tag (Entity.components block) = Some t /\
    (Host.random_kind host < 7 # 10 -> Tag.kind t = "bad") /\
    (7 # 10 <= Host.random_kind host -> Tag.kind t = "good") /\
    Entity.id block =
      (Tag.kind t ++ "_" ++ string_of_number (Math_floor (World.time world * 1000)))%string /\
    Entity.id block <> "player".
Proof.
  intros Hgate Hr0 Hr1 Hcw. unfold spawnerSystem.
  destruct (num_lt (World.time world - Spawn.last (World.spawn world))
                   (Spawn.interval (World.spawn world))) eqn:E;
    [apply num_lt_true in E; contradiction|].
  eexists. eexists. eexists. eexists.
  split; [reflexivity|]. split; [reflexivity|]. split; [reflexivity|].
  cbn [createBlock Entity.components Entity.id Components.position
       Components.tag Position.x Tag.kind].
  assert (Hroom : 0 <= Canvas.width (Host.canvas host) - BLOCK_SIZE) by lra.
  split; [apply Qmult_le_0_compat; assumption|].
  split.
  { assert (H : Host.random_x host * (Canvas.width (Host.canvas host) - BLOCK_SIZE)
                <= 1 * (Canvas.width (Host.canvas host) - BLOCK_SIZE))
      by (apply Qmult_le_compat_r; [apply Qlt_le_weak, Hr1 | exact Hroom]).
    lra. }
  split; [reflexivity|].
  destruct (num_lt (Host.random_kind host) (7 # 10)) eqn:Ek.
  - apply num_lt_true in Ek.
    split; [reflexivity|]. split; [intro; lra|]. split; [reflexivity|].
    intro H. discriminate H.
  - split; [intro H; apply num_lt_true in H; congruence|].
    split; [reflexivity|]. split; [reflexivity|].
    intro H. discriminate H.
Qed.

Lemma spawn_in_canvas_witness :
  exists world' block p t,
    spawnerSystem Sample.host (World.with_time 1 Sample.start) 1 = Some world' /\
    World.entities world'
      = (World.entities (World.with_time 1 Sample.start) ++ [block])%list /\
    Components.position (Entity.components block) = Some p /\
    0 <= Position.x p /\ Position.x p + BLOCK_SIZE <= 800 /\
    Components.tag (Entity.components block) = Some t /\
    Tag.kind t = "good".
Proof.
  destruct (spawn_in_canvas Sample.host (World.with_time 1 Sample.start) 1)
    as (world' & block & p & t & H1 & H2 & H3 & H4 & H5 & H6 & _ & H8 & _);
    try (cbn; discriminate); try reflexivity.
  exists world', block, p, t.
  repeat (split; [assumption|]). apply H8. cbn. discriminate.
Defined.

(** X14.  The spawner spawns at most once per instant: with a positive
    [spawn.interval], a second call on the world the first one returned
    returns that world again, whether the first call spawned or not. *)
Theorem spawn_once_per_instant (host host' : Host.t) (world world1 : World.t)
    (dt dt' : Q) :
  0 < Spawn.interval (World.spawn world) ->
  spawnerSystem host world dt = Some world1 ->
  spawnerSystem host' world1 dt' = Some world1.
Proof.
  intros Hpos. unfold spawnerSystem at 1.
  destruct (num_lt (World.time world - Spawn.last (World.spawn world))
                   (Spawn.interval (World.spawn world))) eqn:E;
    intro H; injection H as <-.
  - unfold spawnerSystem. rewrite E. reflexivity.
  - unfold spawnerSystem at 1.
    cbn [World.with_spawn addEntity World.with_entities World.time World.spawn
         Spawn.last Spawn.interval].
    assert (Hnow : num_lt (World.time world - World.time world)
                          (Spawn.interval (World.spawn world)) = true)
      by (apply num_lt_true; lra).
    rewrite Hnow. reflexivity.
Qed.

Lemma spawn_once_per_instant_witness :
  exists world1,
    spawnerSystem Sample.host (World.with_time 1 Sample.start) 1 = Some world1 /\
    List.length (World.entities world1) = 2%nat /\
    spawnerSystem Sample.host world1 1 = Some world1.
Proof.
  eexists. split; [reflexivity|]. split; [reflexivity|].
  apply (spawn_once_per_instant Sample.host Sample.host
           (World.with_time 1 Sample.start) _ 1 1); reflexivity.
Defined.

Lemma later_stage_no_growth (sys : System) (host : Host.t)
    (world world' : World.t) (dt : Q) :
  In sys [timeSystem; inputSystem; movementSystem; fallingSystem;
          difficultySystem; collisionSystem; cleanupSystem] ->
  sys host world dt = Some world' ->
  (List.length (World.entities world') <= List.length (World.entities world))%nat.
Proof.
  intros Hin Hrun. cbn [In] in Hin.
  repeat (destruct Hin as [Hin | Hin]; [subst|]); [..|destruct Hin].
  - injection Hrun as <-. apply Nat.le_refl.
  - injection Hrun as <-. apply Nat.le_refl.
  - apply movementSystem_sound in Hrun. destruct Hrun as (es' & -> & Hshape).
    cbn [World.with_entities World.entities].
    rewrite (Forall2_length Hshape). apply Nat.le_refl.
  - injection Hrun as <-. cbn [World.with_entities World.entities].
    rewrite length_map. apply Nat.le_refl.
  - injection Hrun as <-.
    cbn [World.with_spawn World.with_entities World.entities].
    rewrite length_map. apply Nat.le_refl.
  - apply collisionSystem_sound in Hrun.
    destruct Hrun as [-> | (_ & player & playerRect & _ & _ & ->)];
      [apply Nat.le_refl | apply filter_length_le].
  - apply cleanupSystem_sound in Hrun. subst world'. apply filter_length_le.
Qed.

Lemma pipe_no_growth (systems : list System) (host : Host.t)
    (world world' : World.t) (dt : Q) :
  (forall sys, In sys systems ->
     In sys [timeSystem; inputSystem; movementSystem; fallingSystem;
             difficultySystem; collisionSystem; cleanupSystem]) ->
  pipeSystems systems host world dt = Some world' ->
  (List.length (World.entities world') <= List.length (World.entities world))%nat.
Proof.
  intros Hsub.
  apply (pipeSystems_related host dt
           (fun w w' => (List.length (World.entities w')
                         <= List.length (World.entities w))%nat)).
  - intro w. apply Nat.le_refl.
  - intros w1 w2 w3 H1 H2. exact (Nat.le_trans _ _ _ H2 H1).
  - intros sys Hin w w'. apply later_stage_no_growth. apply Hsub, Hin.
Qed.

(** X15.  A pipeline pass adds at most one entity to the world: only the
    spawner adds entities, one at a time, and it runs once. *)
Theorem update_adds_at_most_one (host : Host.t) (world world' : World.t) (dt : Q) :
  update host world dt = Some world' ->
  (List.length (World.entities world') <= S (List.length (World.entities world)))%nat.
Proof.
  unfold update, stages.
  change [timeSystem; inputSystem; movementSystem; spawnerSystem; fallingSystem;
          difficultySystem; collisionSystem; cleanupSystem]
    with ([timeSystem; inputSystem; movementSystem]
            ++ spawnerSystem
            :: [fallingSystem; difficultySystem; collisionSystem; cleanupSystem])%list.
  rewrite pipeSystems_app_eq.
  destruct (pipeSystems [timeSystem; inputSystem; movementSystem] host world dt)
    as [w1|] eqn:H1; [|discriminate].
  cbn [bind]. rewrite pipeSystems_cons.
  destruct (spawnerSystem host w1 dt) as [w2|] eqn:H2; [|discriminate].
  cbn [bind]. intro H3.
  apply pipe_no_growth in H1; [|cbn [In]; tauto].
  apply pipe_no_growth in H3; [|cbn [In]; tauto].
  apply spawnerSystem_sound in H2.
  destruct H2 as [-> | (id & x & kind & _ & ->)].
  - lia.
  - cbn [World.with_spawn addEntity World.with_entities World.entities] in H3.
    rewrite length_app in H3. cbn [List.length] in H3. lia.
Qed.

Lemma update_adds_at_most_one_witness :
  exists world',
    update Sample.host Sample.start 1 = Some world' /\
    (List.length (World.entities world') <= 2)%nat.
Proof.
  destruct (update_total Sample.host 1 Sample.start eq_refl) as (world' & Hrun & _).
  exists world'. split; [exact Hrun|].
  exact (update_adds_at_most_one Sample.host Sample.start world' 1 Hrun).
Defined.

(** ** Cleanup *)

Lemma onScreen_boxed (host : Host.t) (e : Entity.t) (b : bool) :
  onScreen host e = Some b -> implb (tagged e) (boxed e) = true.
Proof.
  unfold onScreen, tagged, boxed.
  destruct (Components.tag (Entity.components e)); [|reflexivity].
  destruct (Components.position (Entity.components e)); [|discriminate].
  destruct (Components.size (Entity.components e)); [|discriminate].
  reflexivity.
Qed.

Lemma cleanupSystem_boxed (host : Host.t) (world world' : World.t) (dt : Q) :
  cleanupSystem host world dt = Some world' ->
  blocks_boxed (World.entities world) = true.
Proof.
  unfold cleanupSystem, blocks_boxed.
  destruct (filterSt _ (World.entities world) tt) as [r|] eqn:Hr; [|discriminate].
  intros _. revert r Hr.
  induction (World.entities world) as [|e es IH]; intros r Hr; [reflexivity|].
  cbn [filterSt forallb] in *.
  destruct (onScreen host e) as [b|] eqn:Hb; [|discriminate].
  cbn [bind snd] in Hr.
  destruct (filterSt _ es tt) as [t|] eqn:Ht; [|discriminate].
  rewrite (onScreen_boxed _ _ _ Hb), (IH t eq_refl). reflexivity.
Qed.

Lemma filter_twice {A : Type} (keep : A -> bool) (l : list A) :
  filter keep (filter keep l) = filter keep l.
Proof.
  apply forallb_filter_id. apply List.forallb_filter.
Qed.

(** X16.  Cleanup is idempotent, and it raises exactly on a tagged entity
    without a position or a size: when the cleanup stage returns a world,
    every tagged entity of its input had both, and a second cleanup on the
    same canvas returns the same world. *)
Theorem cleanup_idempotent (host : Host.t) (world world1 : World.t) (dt dt' : Q) :
  cleanupSystem host world dt = Some world1 ->
  blocks_boxed (World.entities world) = true /\
  cleanupSystem host world1 dt' = Some world1.
Proof.
  intro Hrun. pose proof (cleanupSystem_boxed _ _ _ _ Hrun) as Hboxed.
  split; [exact Hboxed|].
  apply cleanupSystem_sound in Hrun. subst world1.
  destruct (cleanupSystem_total host
              (World.with_entities (filter (kept host) (World.entities world)) world)
              dt') as [world2 Hrun2].
  - cbn [World.with_entities World.entities]. apply forallb_filter, Hboxed.
  - rewrite Hrun2. apply cleanupSystem_sound in Hrun2. subst world2.
    cbn [World.with_entities World.entities World.time World.spawn World.score
         World.game World.difficulty World.input].
    rewrite filter_twice. reflexivity.
Qed.

Lemma cleanup_idempotent_witness :
  exists world1,
    cleanupSystem Sample.host
      (Sample.within [Sample.hero; Sample.fallen; Sample.falling_out]) 0
      = Some world1 /\
    cleanupSystem Sample.host world1 0 = Some world1.
Proof.
  eexists. split; [reflexivity|].
  apply (cleanup_idempotent Sample.host
           (Sample.within [Sample.hero; Sample.fallen; Sample.falling_out]) _ 0 0).
  reflexivity.
Defined.

(** ** Movement *)

Lemma num_lt_false (a b : Q) : num_lt a b = false -> b <= a.
Proof.
  intro H. apply Qnot_lt_le. intro L. apply num_lt_true in L. congruence.
Qed.

Lemma clamp_between (hi x v : Q) :
  0 <= x -> x <= hi ->
  (x <= v -> x <= Math_max 0 (Math_min hi v) /\ Math_max 0 (Math_min hi v) <= v) /\
  (v <= x -> v <= Math_max 0 (Math_min hi v) /\ Math_max 0 (Math_min hi v) <= x).
Proof.
  intros H0 Hhi. unfold Math_max, Math_min.
  destruct (num_lt v hi) eqn:E1;
    [apply num_lt_true in E1 | apply num_lt_false in E1];
    (destruct (num_lt 0 _) eqn:E2;
     [apply num_lt_true in E2 | apply num_lt_false in E2]);
    split; intro; split; lra.
Qed.

Lemma velocity_cases (input : option Input.t) :
  velocity input = - (350) \/ velocity input = 0 \/ velocity input = 350.
Proof.
  destruct input as [[[|] [|]]|]; cbv; auto.
Qed.

(** X17.  The player moves at most 350 px per second, and only the way the
    keys say.  On a world whose players have a position, with [dt >= 0], a
    player whose [x] is within [[0, canvas.width - 150]] ends a movement
    stage within [350 * dt] of where it was, not to the left of it unless
    left is held alone, and not to the right of it unless right is held
    alone. *)
Theorem movement_speed_limit (host : Host.t) (world : World.t) (dt : Q) :
  players_placed (World.entities world) = true ->
  0 <= dt ->
  exists es',
    movementSystem host world dt = Some (World.with_entities es' world) /\
    Forall2
      (fun e e' =>
         if is_player e
         then exists p p',
                Components.position (Entity.components e) = Some p /\
                Components.position (Entity.components e') = Some p' /\
                (0 <= Position.x p ->
                 Position.x p <= Canvas.width (Host.canvas host) - 150 ->
                 Position.x p - 350 * dt <= Position.x p' /\
                 Position.x p' <= Position.x p + 350 * dt /\
                 (0 <= velocity (World.input world) -> Position.x p <= Position.x p') /\
                 (velocity (World.input world) <= 0 -> Position.x p' <= Position.x p))
         else e' = e)
      (World.entities world) es'.
Proof.
  intros Hplaced Hdt.
  destruct (movementSystem_spec host world dt Hplaced) as (es' & Hrun & Hall).
  exists es'. split; [exact Hrun|].
  eapply Forall2_impl; [|exact Hall].
  intros e e'. cbv beta. destruct (is_player e); [|trivial].
  intros (p & Hp & ->). exists p. eexists. split; [exact Hp|].
  split; [reflexivity|]. cbn [Position.x].
  intros H0 Hhi. unfold clampedX.
  destruct (clamp_between (Canvas.width (Host.canvas host) - PLAYER_SIZE)
              (Position.x p)
              (Position.x p + velocity (World.input world) * dt) H0 Hhi)
    as [Hup Hdown].
  set (x' := Math_max 0 _) in *.
  destruct (velocity_cases (World.input world)) as [Hv | [Hv | Hv]];
    rewrite Hv in *.
  - destruct Hdown as [D1 D2]; [lra|]. repeat split; try lra.
  - destruct Hup as [U1 U2]; [lra|]. repeat split; try lra.
  - destruct Hup as [U1 U2]; [lra|]. repeat split; try lra.
Qed.

Lemma movement_speed_limit_witness :
  exists es',
    movementSystem Sample.host (Sample.within [Sample.hero]) (1 # 10)
      = Some (World.with_entities es' (Sample.within [Sample.hero])).
Proof.
  destruct (movement_speed_limit Sample.host (Sample.within [Sample.hero]) (1 # 10))
    as (es' & Hrun & _); [reflexivity | cbn; discriminate |].
  exists es'. exact Hrun.
Defined.

(** ** Collision, the other way round *)

Lemma overlapping_elim (kind : string) (m : Margins.t) (playerRect : Rect.t)
    (e : Entity.t) :
  overlapping kind m playerRect e = true ->
  exists t p s,
    Components.tag (Entity.components e) = Some t /\
    Tag.kind t = kind /\
    Components.position (Entity.components e) = Some p /\
    Components.size (Entity.components e) = Some s /\
    rectsOverlap playerRect (hitboxWithMargins p s m) = true.
Proof.
  unfold overlapping, hitboxOf.
  destruct (Components.tag (Entity.components e)) as [t|]; [|discriminate].
  destruct (Components.position (Entity.components e)) as [p|]; [|discriminate].
  destruct (Components.size (Entity.components e)) as [s|]; [|discriminate].
  cbn [bind]. intro H. apply andb_true_iff in H. destruct H as [Hk Ho].
  apply String.eqb_eq in Hk. exists t, p, s. auto.
Qed.

(** X18.  The collision stage acts only on a hit.  When it returns on a
    running game: it sets [game.over] only if some bad-tagged entity's
    hit-rectangle overlaps the player's; every entity it drops is a
    good-tagged one whose hit-rectangle overlaps the player's; it adds no
    entity and keeps the order; and without any entity dropped the score is
    the same number. *)
Theorem collision_only_on_hit (host : Host.t) (world world' : World.t) (dt : Q) :
  collisionSystem host world dt = Some world' ->
  Game.over (World.game world) = false ->
  (Game.over (World.game world') = true ->
   exists player playerRect b t p s,
     find is_player (World.entities world) = Some player /\
     hitboxOf player PLAYER_MARGINS = Some playerRect /\
     In b (World.entities world) /\
     Components.tag (Entity.components b) = Some t /\ Tag.kind t = "bad" /\
     Components.position (Entity.components b) = Some p /\
     Components.size (Entity.components b) = Some s /\
     rectsOverlap playerRect (hitboxWithMargins p s BAD_MARGINS) = true) /\
  (forall e,
      In e (World.entities world) -> ~ In e (World.entities world') ->
      exists player playerRect t p s,
        find is_player (World.entities world) = Some player /\
        hitboxOf player PLAYER_MARGINS = Some playerRect /\
        Components.tag (Entity.components e) = Some t /\ Tag.kind t = "good" /\
        Components.position (Entity.components e) = Some p /\
        Components.size (Entity.components e) = Some s /\
        rectsOverlap playerRect (hitboxWithMargins p s GOOD_MARGINS) = true) /\
  (exists keep, World.entities world' = filter keep (World.entities world)) /\
  (World.entities world' = World.entities world ->
   World.score world' == World.score world).
Proof.
  intros Hrun Hover. apply collisionSystem_sound in Hrun.
  destruct Hrun as [-> | (_ & player & playerRect & Hfind & Hrect & ->)].
  - split; [congruence|]. split; [intros e H1 H2; contradiction|].
    split; [|reflexivity].
    exists (fun _ => true). symmetry. apply filter_true.
  - cbn [World.entities World.score World.game Game.over].
    split; [|split; [|split]].
    + intro Hbad. apply existsb_exists in Hbad. destruct Hbad as (b & Hin & Hb).
      destruct (overlapping_elim _ _ _ _ Hb) as (t & p & s & H1 & H2 & H3 & H4 & H5).
      exists player, playerRect, b, t, p, s. auto 10.
    + intros e Hin Hout.
      destruct (good_hit playerRect e) eqn:Hg.
      * destruct (overlapping_elim _ _ _ _ Hg) as (t & p & s & H1 & H2 & H3 & H4 & H5).
        exists player, playerRect, t, p, s. auto 10.
      * exfalso. apply Hout. apply filter_In. rewrite Hg. auto.
    + eexists. reflexivity.
    + intro Hsame.
      assert (Hnone : filter (good_hit playerRect) (World.entities world) = []).
      { pose proof (filter_length (good_hit playerRect) (World.entities world)) as Hlen.
        rewrite Hsame in Hlen.
        destruct (filter (good_hit playerRect) (World.entities world));
          [reflexivity | cbn [List.length] in Hlen; lia]. }
      rewrite Hnone. cbn [List.length bump]. ring.
Qed.

Lemma collision_only_on_hit_witness :
  exists world',
    collisionSystem Sample.host Sample.crowded 0 = Some world' /\
    exists keep, World.entities world' = filter keep (World.entities Sample.crowded).
Proof.
  eexists. split; [reflexivity|].
  exact (proj1 (proj2 (proj2
           (collision_only_on_hit Sample.host Sample.crowded _ 0 eq_refl eq_refl)))).
Defined.

(** ** From the first frame on *)

Lemma run_one_player (frames : list Frame) (world world' : World.t) :
  run frames world = Some world' -> one_player world -> one_player world'.
Proof.
  revert world. induction frames as [|[host dt] rest IH]; intros world Hrun Hone;
    cbn [run] in Hrun.
  - injection Hrun as <-. exact Hone.
  - destruct (update host world dt) as [w|] eqn:Hw; [|discriminate].
    cbn [bind] in Hrun.
    exact (IH w Hrun (update_one_player host dt world w Hw Hone)).
Qed.

Lemma sprite_boxed (world : World.t) (e : Entity.t) :
  well_formed world = true ->
  In e (World.entities world) ->
  spriteOf e <> None ->
  boxed e = true.
Proof.
  unfold well_formed. intros Hwf Hin Hsprite.
  apply andb_true_iff in Hwf. destruct Hwf as [Hb Hp].
  unfold blocks_boxed in Hb. unfold players_boxed in Hp.
  rewrite forallb_forall in Hb, Hp.
  specialize (Hb e Hin). specialize (Hp e Hin).
  unfold spriteOf in Hsprite. destruct (is_player e); [exact Hp|].
  unfold tagged in Hb.
  destruct (Components.tag (Entity.components e)); [exact Hb | congruence].
Qed.

(** X19.  The game never raises.  From the world the program starts with,
    the empty world plus the player, on a canvas of any size, any sequence of
    pipeline passes (whatever the canvas, the keys, the draws and the [dt] of
    each) runs to its end; the world it reaches has exactly one entity of id
    ["player"], untagged, and every entity that [loop] would draw has the
    position and the size the drawing reads. *)
Theorem game_never_raises (canvas : Canvas.t) (frames : list Frame) :
  exists world',
    run frames (addEntity createWorld (player canvas)) = Some world' /\
    count_players (World.entities world') = 1%nat /\
    players_untagged (World.entities world') = true /\
    (forall e, In e (World.entities world') -> spriteOf e <> None -> boxed e = true).
Proof.
  destruct (run_total frames (addEntity createWorld (player canvas)) eq_refl)
    as (world' & Hrun & Hwf).
  exists world'. split; [exact Hrun|].
  destruct (run_one_player frames _ world' Hrun) as [Hcount Huntagged];
    [split; reflexivity|].
  split; [exact Hcount|]. split; [exact Huntagged|].
  intros e Hin. exact (sprite_boxed world' e Hwf Hin).
Qed.

(** ** The frame loop *)






(** ** Sprites *)

Lemma same_sprites (es es' : list Entity.t) :
  Forall2 (fun e e' => spriteOf e' = spriteOf e) es es' ->
  forallb has_sprite es' = forallb has_sprite es.
Proof.
  induction 1 as [|e e' es es' He _ IH]; [reflexivity|].
  cbn [forallb]. unfold has_sprite at 1 3. rewrite He, IH. reflexivity.
Qed.

Lemma sprite_fall (dt : Q) (e : Entity.t) : spriteOf (fall dt e) = spriteOf e.
Proof.
  unfold fall.
  destruct (Components.falling (Entity.components e)); [|reflexivity].
  destruct (Components.position (Entity.components e)); reflexivity.
Qed.

Lemma sprite_rescale (m : Q) (e : Entity.t) : spriteOf (rescale m e) = spriteOf e.
Proof.
  unfold rescale.
  destruct (Components.falling (Entity.components e)); reflexivity.
Qed.

Lemma stage_sprites (sys : System) (host : Host.t) (world world' : World.t)
    (dt : Q) :
  In sys stages ->
  sys host world dt = Some world' ->
  forallb has_sprite (World.entities world) = true ->
  forallb has_sprite (World.entities world') = true.
Proof.
  intros Hin Hrun Hall. each_stage Hin.
  - injection Hrun as <-. exact Hall.
  - injection Hrun as <-. exact Hall.
  - unfold movementSystem in Hrun.
    destruct (mapM _ (World.entities world)) as [es'|] eqn:Hes'; [|discriminate].
    cbn [bind] in Hrun. injection Hrun as <-.
    cbn [World.with_entities World.entities].
    rewrite <- Hall. apply same_sprites.
    apply mapM_Forall2 in Hes'. eapply Forall2_impl; [|exact Hes'].
    intros e e' He. apply movePlayer_spec in He.
    destruct (is_player e); [|congruence].
    destruct He as (p & _ & ->). reflexivity.
  - unfold spawnerSystem in Hrun.
    destruct (num_lt _ _); injection Hrun as <-; [exact Hall|].
    cbn [World.with_spawn addEntity World.with_entities World.entities].
    rewrite forallb_app, Hall. cbn [forallb andb].
    destruct (num_lt (Host.random_kind host) (7 # 10)); reflexivity.
  - injection Hrun as <-. cbn [World.with_entities World.entities].
    rewrite <- Hall. apply same_sprites, Forall2_map_r. apply sprite_fall.
  - injection Hrun as <-.
    cbn [World.with_spawn World.with_entities World.entities].
    rewrite <- Hall. apply same_sprites, Forall2_map_r. apply sprite_rescale.
  - apply collisionSystem_sound in Hrun.
    destruct Hrun as [-> | (_ & player & playerRect & _ & _ & ->)];
      [exact Hall | apply forallb_filter, Hall].
  - apply cleanupSystem_sound in Hrun. subst world'.
    apply forallb_filter, Hall.
Qed.

Lemma run_sprites (frames : list Frame) (world world' : World.t) :
  run frames world = Some world' ->
  forallb has_sprite (World.entities world) = true ->
  forallb has_sprite (World.entities world') = true.
Proof.
  revert world. induction frames as [|[host dt] rest IH]; intros world Hrun Hall;
    cbn [run] in Hrun.
  - injection Hrun as <-. exact Hall.
  - destruct (update host world dt) as [w|] eqn:Hw; [|discriminate].
    cbn [bind] in Hrun. apply (IH w Hrun). revert Hall. revert Hw.
    apply (pipeSystems_related host dt
             (fun w1 w2 => forallb has_sprite (World.entities w1) = true ->
                           forallb has_sprite (World.entities w2) = true)).
    + auto.
    + auto.
    + intros sys Hin w1 w2. exact (stage_sprites sys host w1 w2 dt Hin).
Qed.

(** X21.  Nothing in the game is invisible.  If every entity of a world has
    an image in [loop] (it is the player, or a block tagged ["good"] or
    ["bad"]), so has every entity of the world after any sequence of
    pipeline passes: the spawner only makes good and bad blocks, and no stage
    changes an id or a tag.  The player keeps the player image whatever its
    tag. *)
Theorem sprites_preserved (frames : list Frame) (world world' : World.t) :
  forallb has_sprite (World.entities world) = true ->
  run frames world = Some world' ->
  (forall e, In e (World.entities world') -> spriteOf e <> None) /\
  (forall e, In e (World.entities world') -> is_player e = true ->
             spriteOf e = Some playerImage).
Proof.
  intros Hall Hrun. pose proof (run_sprites frames world world' Hrun Hall) as H.
  rewrite forallb_forall in H. split.
  - intros e Hin. specialize (H e Hin). unfold has_sprite in H.
    destruct (spriteOf e); [discriminate | discriminate].
  - intros e _ Hp. unfold spriteOf. rewrite Hp. reflexivity.
Qed.

Lemma sprites_preserved_witness :
  exists world',
    run Sample.frames Sample.start = Some world' /\
    forall e, In e (World.entities world') -> spriteOf e <> None.
Proof.
  destruct (run_total Sample.frames Sample.start eq_refl) as (world' & Hrun & _).
  exists world'. split; [exact Hrun|].
  exact (proj1 (sprites_preserved Sample.frames Sample.start world' eq_refl Hrun)).
Defined.

(** ** Input *)

(** X22.  A pipeline pass moves the player by the keyboard state of that
    frame, never by an [input] left in the world by an earlier pass: the
    result of [update] does not depend on [world.input], and the world it
    returns carries the frame's [inputState]. *)
Theorem update_ignores_stale_input (host : Host.t) (world : World.t) (dt : Q)
    (stale : option Input.t) :
  update host (World.with_input stale world) dt = update host world dt /\
  (forall world', update host world dt = Some world' ->
                  World.input world' = Some (Host.inputState host)).
Proof.
  split.
  - unfold update, stages. rewrite !pipeSystems_cons. reflexivity.
  - unfold update, stages. rewrite pipeSystems_cons. cbn [timeSystem bind].
    rewrite pipeSystems_cons. cbn [inputSystem bind]. intros world' Hrun.
    set (w0 := World.with_input (Some (Host.inputState host))
                 (World.with_time (World.time world + dt) world)) in Hrun.
    change (World.input world' = World.input w0).
    revert Hrun.
    apply (pipeSystems_related host dt
             (fun w w' => World.input w' = World.input w)).
    + reflexivity.
    + intros w1 w2 w3 H1 H2. congruence.
    + intros sys Hin w w' Hsys. cbn [In] in Hin.
      repeat (destruct Hin as [Hin | Hin]; [subst|]); [..|destruct Hin].
      * apply movementSystem_sound in Hsys. destruct Hsys as (es' & -> & _).
        reflexivity.
      * apply spawnerSystem_sound in Hsys.
        destruct Hsys as [-> | (id & x & kind & _ & ->)]; reflexivity.
      * injection Hsys as <-. reflexivity.
      * injection Hsys as <-. reflexivity.
      * apply collisionSystem_keeps in Hsys. tauto.
      * apply cleanupSystem_keeps in Hsys. tauto.
Qed.
